(** * Observation terms of the VLN-CE Isaac extension: lidar processing

    Shallow embedding of [process_lidar] and [height_map_lidar] from
    [vlnce/mdp/observations.py].

    Tensor elements are modelled by [Float.t]: the IEEE special values
    NaN, -Inf and +Inf with their comparison and propagation rules, and
    finite values as exact rationals.  Rounding and overflow of finite
    arithmetic are not modelled; negative zero is identified with zero.
    The constants the code compares tensor elements with (the bounds of
    the range mask and the bin edges) are the float32 values the
    library derives from the Python literals, see [f32]. *)

From Stdlib Require Import ZArith QArith Qcanon Qround Qabs Sorted Lia.
From stdpp Require Import base decidable option numbers list.

Local Open Scope Z_scope.

(** ** Tensor elements *)

Module Float.

Inductive t : Type :=
| NaN
| NInf
| PInf
| Fin (q : Qc).

#[global] Instance eq_dec : EqDecision t.
Proof. solve_decision. Defined.

Definition of_Q (q : Q) : t := Fin (Q2Qc q).
Definition zero : t := of_Q 0.

Definition isnan (a : t) : bool :=
  match a with NaN => true | _ => false end.

Definition isinf (a : t) : bool :=
  match a with NInf | PInf => true | _ => false end.

Definition isfinite (a : t) : bool :=
  match a with Fin _ => true | _ => false end.

Definition Qcltb (p q : Qc) : bool :=
  match (p ?= q)%Qc with Lt => true | _ => false end.

(** [a < b]; false as soon as one side is NaN. *)
Definition ltb (a b : t) : bool :=
  match a, b with
  | NaN, _ | _, NaN => false
  | _, NInf => false
  | NInf, _ => true
  | PInf, _ => false
  | Fin _, PInf => true
  | Fin p, Fin q => Qcltb p q
  end.

Definition gtb (a b : t) : bool := ltb b a.

(** [a <= b]; false as soon as one side is NaN. *)
Definition leb (a b : t) : bool :=
  match a, b with
  | NaN, _ | _, NaN => false
  | _, _ => negb (ltb b a)
  end.

Definition geb (a b : t) : bool := leb b a.

Definition opp (a : t) : t :=
  match a with
  | NaN => NaN
  | NInf => PInf
  | PInf => NInf
  | Fin q => Fin (- q)%Qc
  end.

Definition add (a b : t) : t :=
  match a, b with
  | NaN, _ | _, NaN => NaN
  | PInf, NInf | NInf, PInf => NaN
  | PInf, _ | _, PInf => PInf
  | NInf, _ | _, NInf => NInf
  | Fin p, Fin q => Fin (p + q)%Qc
  end.

Definition sub (a b : t) : t := add a (opp b).

Definition sgn_inf (neg : bool) : t := if neg then NInf else PInf.

Definition Qcneg (q : Qc) : bool := Qcltb q (Q2Qc 0).
Definition Qcis0 (q : Qc) : bool := bool_decide (q = Q2Qc 0).

Definition mul (a b : t) : t :=
  match a, b with
  | NaN, _ | _, NaN => NaN
  | Fin p, Fin q => Fin (p * q)%Qc
  | Fin p, PInf | PInf, Fin p =>
      if Qcis0 p then NaN else sgn_inf (Qcneg p)
  | Fin p, NInf | NInf, Fin p =>
      if Qcis0 p then NaN else sgn_inf (negb (Qcneg p))
  | PInf, PInf | NInf, NInf => PInf
  | PInf, NInf | NInf, PInf => NInf
  end.

(** Division by a finite non-zero constant is all the source needs;
    the remaining cases follow IEEE 754. *)
Definition div (a b : t) : t :=
  match a, b with
  | NaN, _ | _, NaN => NaN
  | Fin p, Fin q =>
      if Qcis0 q then
        (if Qcis0 p then NaN else sgn_inf (Qcneg p))
      else Fin (p / q)%Qc
  | Fin _, (PInf | NInf) => zero
  | (PInf | NInf), (PInf | NInf) => NaN
  | PInf, Fin q => sgn_inf (Qcneg q)
  | NInf, Fin q => sgn_inf (negb (Qcneg q))
  end.

End Float.

Abbreviation float := Float.t.

Declare Scope float_scope.
Delimit Scope float_scope with F.
Infix "-" := Float.sub : float_scope.
Infix "/" := Float.div : float_scope.
Infix "<?" := Float.ltb : float_scope.
Infix "<=?" := Float.leb : float_scope.
Infix ">?" := Float.gtb : float_scope.
Infix ">=?" := Float.geb : float_scope.

(** Decimal literal [n / 10^k]. *)
Definition dec (n : Z) (k : Z) : Qc := Q2Qc (n # Z.to_pos (10 ^ k)).

(** ** Single precision constants

    [f32 q] is the float32 (binary32) value nearest to [q], ties to the
    even mantissa: [q] is scaled by a power of two so that its
    magnitude lies in [[2^23, 2^24)], rounded to an integer and scaled
    back.  The exponent range is not limited, which is enough for the
    constants of this file.  For instance [f32 0.2 = 13421773 / 2^26],
    that is 0.20000000298..., and [f32 (-0.5) = -0.5]. *)
Definition floor_log2 (q : Q) : Z :=
  let e := Z.log2 (Qnum q) - Z.log2 (Zpos (Qden q)) in
  if Qle_bool (Qpower 2 e) q then e else e - 1.

Definition round_half_even (q : Q) : Z :=
  let n := Qfloor q in
  match Qcompare (q - inject_Z n) (1 # 2) with
  | Lt => n
  | Gt => n + 1
  | Eq => if Z.even n then n else n + 1
  end.

Definition f32 (q : Qc) : Qc :=
  let a := Qabs q in
  if Qeq_bool a 0 then Q2Qc 0 else
  let e := floor_log2 a in
  let m := round_half_even (a * Qpower 2 (23 - e)) in
  let r := (inject_Z m * Qpower 2 (e - 23))%Q in
  Q2Qc (if Qle_bool 0 q then r else - r).

(** A Python scalar that meets a float32 tensor in a comparison is
    cast to the dtype of the tensor. *)
Definition scalar32 (q : Qc) : float := Float.Fin (f32 q).

(** ** Scene data read by the observation terms *)

Definition vec3 : Type := float * float * float.
Definition quat : Type := float * float * float * float.

Definition vx (v : vec3) : float := v.1.1.
Definition vy (v : vec3) : float := v.1.2.
Definition vz (v : vec3) : float := v.2.

Definition vec3_map (f : float -> float) (v : vec3) : vec3 :=
  (f (vx v), f (vy v), f (vz v)).

Definition vec3_sub (a b : vec3) : vec3 :=
  ((vx a - vx b)%F, (vy a - vy b)%F, (vz a - vz b)%F).

(** One row of the batched tensors: [sensor.data.pos_w[e]] (shape 3),
    [sensor.data.ray_hits_w[e]] (shape R x 3) and
    [env.scene["robot"].data.root_quat_w[e]] (shape 4, w first). *)
Record EnvData : Type := mkEnvData {
  pos_w : vec3;
  root_quat_w : quat;
  ray_hits_w : list vec3
}.

(** The batch: one entry per environment, [num_envs = length scene]. *)
Abbreviation Scene := (list EnvData).

(** ** Elementwise tensor primitives *)

(** [t[mask(t)] = v] on one element. *)
Definition masked_fill (mask : float -> bool) (v x : float) : float :=
  if mask x then v else x.

(** [torch.where(cond(t), v, t)] on one element. *)
Definition where_ (cond : float -> bool) (v x : float) : float :=
  if cond x then v else x.

(** [torch.clip(x, lo, hi)]; NaN passes through. *)
Definition clip (lo hi x : float) : float :=
  if Float.isnan x then x
  else if (x <? lo)%F then lo
  else if (x >? hi)%F then hi
  else x.

(** ** [process_lidar] *)

Definition near_clip : float := Float.Fin (dec 0 0).
Definition far_clip : float := Float.Fin (dec 5 0).

Definition process_lidar_elem (offset pz hz : float) : float :=
  let output := ((pz - hz) - offset)%F in
  let output := masked_fill Float.isnan far_clip output in
  let output := masked_fill Float.isinf far_clip output in
  let output := clip near_clip far_clip output in
  (((output - near_clip) / (far_clip - near_clip)) - Float.Fin (dec 5 1))%F.

Definition process_lidar (scene : Scene) (offset : float) : list (list float) :=
  fmap (fun e => fmap (fun h => process_lidar_elem offset (vz (pos_w e)) (vz h))
                    (ray_hits_w e))
      scene.

(** ** Depth images

    [sensor.output["distance_to_image_plane"]] has shape [N, H, W];
    [.clone().unsqueeze(1)] gives [N, 1, H, W]. *)

Abbreviation image := (list (list float)).

Definition unsqueeze1 (t : list image) : list (list image) :=
  (fun img => [img]) <$> t.

(** [t[mask(t)] = v] on a tensor of shape [N, C, H, W]. *)
Definition images_fill (mask : float -> bool) (v : float)
           (t : list (list image)) : list (list image) :=
  (fun chans : list image =>
     (fun img : image =>
        (fun row : list float => masked_fill mask v <$> row) <$> img)
     <$> chans) <$> t.

(** The depth branch of [isaac_camera_data] and of
    [matterport_raycast_camera_data]. *)
Definition camera_depth (depth : list image) : list (list image) :=
  images_fill Float.isinf Float.zero
    (images_fill Float.isnan Float.zero (unsqueeze1 depth)).

(** [process_depth_image] with [visualize=False]; the clipping to
    [[near_clip, far_clip]] is commented out in the source, and
    [near_clip] is not used. *)
Definition process_depth_image (depth : list image) (far_clip near_clip : float)
  : list (list image) :=
  images_fill Float.isinf far_clip
    (images_fill Float.isnan far_clip (unsqueeze1 depth)).

(** Element access, [None] outside the shape. *)
Definition pixel3 (t : list image) (n h w : nat) : option float :=
  img ← t !! n; row ← img !! h; row !! w.

Definition pixel4 (t : list (list image)) (n c h w : nat) : option float :=
  chans ← t !! n; img ← chans !! c; row ← img !! h; row !! w.

Definition all_pixels (P : float -> Prop) (t : list (list image)) : Prop :=
  Forall (Forall (Forall (Forall P))) t.

(** ** Voxel grid parameters (module level constants) *)

Definition voxel_size_xy : Qc := dec 6 2.
Definition range_x : Qc * Qc := (dec (-8) 1, (dec 2 1 + dec 1 9)%Qc).
Definition range_y : Qc * Qc := (dec (-8) 1, (dec 8 1 + dec 1 9)%Qc).
Definition range_z : Qc * Qc := (dec 0 0, dec 5 0).

(** [torch.arange(start, stop, step)] with the default dtype float32:
    [ceil((stop - start) / step)] values; value [i] is [start + i * step]
    computed in double precision and stored as float32.  The double
    precision sum is taken as exact here: for the two edge tensors of
    this file its float32 image is the float32 nearest to the decimal
    [start + i * step].  (Vectorised and GPU kernels of the library
    form the sum in another order and can end a few units in the last
    place away on some edges; statements about points on an edge are
    therefore made for the edge tensor itself, whatever its values.) *)
Definition arange_len (start stop step : Qc) : nat :=
  Z.to_nat (Qceiling ((stop - start) / step)%Qc).

Definition arange (start stop step : Qc) : list float :=
  fmap (fun i : nat =>
          Float.Fin (f32 (start + Q2Qc (inject_Z (Z.of_nat i)) * step)%Qc))
      (seq 0 (arange_len start stop step)).

Definition x_bins : list float := arange range_x.1 range_x.2 voxel_size_xy.
Definition y_bins : list float := arange range_y.1 range_y.2 voxel_size_xy.

(** [torch.bucketize(v, boundaries)] with [right=False] on sorted
    boundaries: the index of the first boundary [b] with [b >= v], the
    number of boundaries when there is none.  The library's search
    advances while [not (b >= v)]. *)
Fixpoint bucketize (v : float) (boundaries : list float) : Z :=
  match boundaries with
  | [] => 0
  | b :: bs => if negb (b >=? v)%F then 1 + bucketize v bs else 0
  end.

(** The reduction of [scatter_reduce_(..., reduce="amin")] for one
    source element: NaN sources win, otherwise the smaller value. *)
Definition amin (self src : float) : float :=
  if Float.isnan src then src
  else if (src <? self)%F then src else self.

(** [self.scatter_reduce_(0, index, src, reduce="amin")] on a flat
    tensor, [index] and [src] given as one list of pairs.  An index
    outside [0, len(self)) raises; this is [None]. *)
Fixpoint scatter_reduce_amin (self : list float) (upd : list (Z * float))
  : option (list float) :=
  match upd with
  | [] => Some self
  | (i, z) :: upd' =>
      if (0 <=? i) && (i <? Z.of_nat (length self)) then
        match self !! Z.to_nat i with
        | Some old =>
            scatter_reduce_amin (<[Z.to_nat i := amin old z]> self) upd'
        | None => None
        end
      else None
  end.

(** [F.max_pool2d(t, kernel_size=3, stride=1, padding=1)] on one
    [H x W] channel stored row-major in [g].  The window is cut at the
    border (implicit padding with -Inf); the running maximum is
    replaced when the visited value is larger or NaN. *)
Definition max_step (maxval val : float) : float :=
  if (val >? maxval)%F || Float.isnan val then val else maxval.

Definition pool_range (n i : nat) : list nat :=
  let lo := Nat.pred i in
  let hi := Nat.min (i + 2) n in
  seq lo (hi - lo).

Definition pool_window (H W i j : nat) : list nat :=
  ih ← pool_range H i; iw ← pool_range W j; [(ih * W + iw)%nat].

Definition max_pool2d_at (g : list float) (H W i j : nat) : float :=
  fold_left max_step
    (fmap (fun k => default Float.NaN (g !! k)) (pool_window H W i j))
    Float.NInf.

Definition max_pool2d (g : list float) (H W : nat) : list float :=
  i ← seq 0 H; j ← seq 0 W; [max_pool2d_at g H W i j].

(** ** [height_map_lidar] *)

Definition Bx : nat := length x_bins.
Definition By : nat := length y_bins.

Definition sensor_quat_default : quat :=
  (Float.Fin (dec (-131) 3), Float.Fin (dec 0 0),
   Float.Fin (dec (-991) 3), Float.Fin (dec 0 0)).

Definition min_height : float := Float.Fin (dec 5 2).

(** [hit_vec = ray_hits_w - pos_w.unsqueeze(1)], then Inf and NaN
    entries set to 0.0 in place. *)
Definition sanitize (c : float) : float :=
  masked_fill Float.isnan Float.zero (masked_fill Float.isinf Float.zero c).

Definition hit_vec (e : EnvData) : list vec3 :=
  fmap (fun h => vec3_map sanitize (vec3_sub h (pos_w e))) (ray_hits_w e).

(** The range mask on a point of the lidar frame.  The coordinates
    are float32 tensors and the bounds Python scalars, so each bound
    is compared as its float32 value: [x_max] is the float32 of
    [0.2 + 1e-9], 0.20000000298..., and [x_min] the float32 of [-0.8],
    which is also the first bin edge. *)
Definition valid_indices (p : vec3) : bool :=
  (vx p >? scalar32 range_x.1)%F && (vx p <=? scalar32 range_x.2)%F &&
  (vy p >? scalar32 range_y.1)%F && (vy p <=? scalar32 range_y.2)%F &&
  (vz p >=? scalar32 range_z.1)%F && (vz p <=? scalar32 range_z.2)%F.

Definition x_indices (p : vec3) : Z := bucketize (vx p) x_bins - 1.
Definition y_indices (p : vec3) : Z := bucketize (vy p) y_bins - 1.

(** [flat_env_indices * len(x_bins) * len(y_bins)
     + x_indices * len(y_bins) + y_indices] for a point of environment
    [e]. *)
Definition linear_indices (e : nat) (p : vec3) : Z :=
  Z.of_nat e * Z.of_nat Bx * Z.of_nat By
  + x_indices p * Z.of_nat By + y_indices p.

(** Step 5 on one element of the flat map: offset, threshold, Inf. *)
Definition finalize (offset : float) (v : float) : float :=
  let v := (v - offset)%F in
  let v := where_ (fun m => (m <? min_height)%F) Float.zero v in
  where_ Float.isinf Float.zero v.

(** ** Tensor storage

    The call seen with the storage it works on: every tensor lives at
    a location of a heap, an operation that builds a new tensor
    allocates, an in-place operation overwrites, and a view shares the
    location of its base.  The module keeps the deque
    [prev_height_maps] next to the heap. *)

Inductive tensor : Type :=
| Input (scene : Scene)             (* the buffers of the sensor and the robot *)
| Points (t : list (list vec3))     (* shape [N, R, 3] *)
| Flat (t : list float)             (* shape [M] *)
| Rows (t : list (list float)).     (* shape [N, M] *)

Record world : Type := mkWorld {
  heap : list tensor;
  prev_height_maps : list (list float)
}.

Definition M (A : Type) : Type := world -> option (A * world).

#[global] Instance M_ret : MRet M := fun A a w => Some (a, w).
#[global] Instance M_bind : MBind M := fun A B k c w =>
  match c w with
  | Some (a, w') => k a w'
  | None => None
  end.

Definition alloc (t : tensor) : M nat := fun w =>
  Some (length (heap w), mkWorld (heap w ++ [t]) (prev_height_maps w)).

Definition load (l : nat) : M tensor := fun w =>
  match heap w !! l with
  | Some t => Some (t, w)
  | None => None
  end.

Definition store (l : nat) (t : tensor) : M unit := fun w =>
  Some (tt, mkWorld (<[l := t]> (heap w)) (prev_height_maps w)).

Definition fail {A : Type} : M A := fun _ => None.

Definition load_input (l : nat) : M Scene :=
  t ← load l; match t with Input s => mret s | _ => fail end.

Definition load_points (l : nat) : M (list (list vec3)) :=
  t ← load l; match t with Points p => mret p | _ => fail end.

Definition load_flat (l : nat) : M (list float) :=
  t ← load l; match t with Flat m => mret m | _ => fail end.

(** [t[mask(t)] = v] on the tensor stored at [l]. *)
Definition masked_fill_ (l : nat) (mask : float -> bool) (v : float) : M unit :=
  p ← load_points l;
  store l (Points ((fun row : list vec3 =>
                      vec3_map (masked_fill mask v) <$> row) <$> p)).

(** [t.scatter_reduce_(0, index, src, reduce="amin")] on the tensor
    stored at [l]. *)
Definition scatter_reduce_ (l : nat) (upd : list (Z * float)) : M unit :=
  m ← load_flat l;
  match scatter_reduce_amin m upd with
  | Some m' => store l (Flat m')
  | None => fail
  end.

Section HeightMap.

(** [omni.isaac.lab.utils.math] is outside the repository; the
    development is parametric in its two functions, applied row by
    row. *)
Variable quat_mul : quat -> quat -> quat.
Variable quat_rotate_inverse : quat -> vec3 -> vec3.

Definition sensor_quat_w (e : EnvData) : quat :=
  quat_mul (root_quat_w e) sensor_quat_default.

Definition hit_vec_lidar_frame (e : EnvData) : list vec3 :=
  fmap (quat_rotate_inverse (sensor_quat_w e)) (hit_vec e).

(** The points selected by the mask, in row-major order, each with its
    environment index: [(linear_indices, z_filtered)]. *)
Definition env_updates (e : nat) (pts : list vec3) : list (Z * float) :=
  fmap (fun p => (linear_indices e p, vz p)) (filter valid_indices pts).

Fixpoint updates_from (e0 : nat) (frames : list (list vec3))
  : list (Z * float) :=
  match frames with
  | [] => []
  | pts :: frames' => env_updates e0 pts ++ updates_from (S e0) frames'
  end.

Definition scatter_updates (scene : Scene) : list (Z * float) :=
  updates_from 0 (fmap hit_vec_lidar_frame scene).

(** [torch.full((num_envs, Bx, By), inf).view(-1)] after the scatter:
    the raw flat map, before the offset. *)
Definition raw_map (scene : Scene) : option (list float) :=
  scatter_reduce_amin (replicate (length scene * Bx * By) Float.PInf)
                      (scatter_updates scene).

(** The flat map after step 5, before pooling. *)
Definition map_2_5D (scene : Scene) (offset : float) : option (list float) :=
  (fun m : list float => finalize offset <$> m) <$> raw_map scene.

(** [map_2_5D.view(num_envs, Bx, By)[e]] as a flat row-major grid. *)
Definition env_grid (m : list float) (e : nat) : list float :=
  take (Bx * By) (drop (e * (Bx * By)) m).

(** [F.max_pool2d] on the map viewed as [num_envs] grids, flattened
    again.  The library refuses a batch without environments
    ([num_envs = 0]) with an error; here the result is the empty
    tensor. *)
Definition max_across_frames (num_envs : nat) (m : list float)
  : list (list float) :=
  fmap (fun e => max_pool2d (env_grid m e) Bx By) (seq 0 num_envs).

Definition height_map_lidar (scene : Scene) (offset : float)
  : option (list (list float)) :=
  max_across_frames (length scene) <$> map_2_5D scene offset.

(** The call statement by statement.  [sensor] is the location of the
    input buffers; [hit_vec] is filled in place twice, and the scatter
    writes through the flat view of the map it has just allocated;
    nothing is appended to [prev_height_maps].  Tensors that are built
    and consumed inside one expression (the quaternion products, the
    masks, the index tensors) get no location of their own. *)
Definition height_map_lidar_call (sensor : nat) (offset : float) : M nat :=
  scene ← load_input sensor;
  hit_vec ← alloc (Points ((fun e => (fun h => vec3_sub h (pos_w e))
                                       <$> ray_hits_w e) <$> scene));
  _ ← masked_fill_ hit_vec Float.isinf Float.zero;
  _ ← masked_fill_ hit_vec Float.isnan Float.zero;
  hv ← load_points hit_vec;
  frame ← alloc (Points (zip_with (fun e row =>
                   quat_rotate_inverse (sensor_quat_w e) <$> row) scene hv));
  fr ← load_points frame;
  map ← alloc (Flat (replicate (length fr * Bx * By) Float.PInf));
  _ ← scatter_reduce_ map (updates_from 0 fr);
  m ← load_flat map;
  shifted ← alloc (Flat ((fun v => v - offset)%F <$> m));
  m ← load_flat shifted;
  clamped ← alloc (Flat (where_ (fun v => v <? min_height)%F Float.zero <$> m));
  m ← load_flat clamped;
  cleaned ← alloc (Flat (where_ Float.isinf Float.zero <$> m));
  m ← load_flat cleaned;
  alloc (Rows (max_across_frames (length fr) m)).

End HeightMap.

(** ** The rotation helpers of the simulation library

    Modelled on [omni.isaac.lab.utils.math]; used to run the
    development on concrete scenes. *)
Module IsaacMath.

Infix "+" := Float.add : float_scope.
Infix "*" := Float.mul : float_scope.

Definition two : float := Float.Fin (dec 2 0).
Definition one : float := Float.Fin (dec 1 0).
Definition half : float := Float.Fin (dec 5 1).

Definition quat_mul (q1 q2 : quat) : quat :=
  let '(w1, x1, y1, z1) := q1 in
  let '(w2, x2, y2, z2) := q2 in
  let ww := ((z1 + x1) * (x2 + y2))%F in
  let yy := ((w1 - y1) * (w2 + z2))%F in
  let zz := ((w1 + y1) * (w2 - z2))%F in
  let xx := (ww + yy + zz)%F in
  let qq := (half * (xx + (z1 - x1) * (x2 - y2)))%F in
  let w := (qq - ww + (z1 - y1) * (y2 - z2))%F in
  let x := (qq - xx + (x1 + w1) * (x2 + w2))%F in
  let y := (qq - yy + (w1 - x1) * (y2 + z2))%F in
  let z := (qq - zz + (z1 + y1) * (w2 - x2))%F in
  (w, x, y, z).

Definition quat_rotate_inverse (q : quat) (v : vec3) : vec3 :=
  let '(qw, qx, qy, qz) := q in
  let '(v1, v2, v3) := v in
  let s := (two * (qw * qw) - one)%F in
  let a := ((v1 * s)%F, (v2 * s)%F, (v3 * s)%F) in
  let c1 := (qy * v3 - qz * v2)%F in
  let c2 := (qz * v1 - qx * v3)%F in
  let c3 := (qx * v2 - qy * v1)%F in
  let b := ((c1 * qw * two)%F, (c2 * qw * two)%F, (c3 * qw * two)%F) in
  let d := (qx * v1 + qy * v2 + qz * v3)%F in
  let c := ((qx * d * two)%F, (qy * d * two)%F, (qz * d * two)%F) in
  ((a.1.1 - b.1.1 + c.1.1)%F, (a.1.2 - b.1.2 + c.1.2)%F, (a.2 - b.2 + c.2)%F).

End IsaacMath.

(** ** Specification vocabulary *)

(** The flat index of cell [(i, j)] of environment [e]. *)
Definition flat_index (e i j : nat) : nat := (e * Bx * By + i * By + j)%nat.

(** The heights of the surviving points of one environment that are
    binned into cell [(i, j)]. *)
Definition cell_points (pts : list vec3) (i j : nat) : list float :=
  vz <$> filter (fun p => valid_indices p
                          /\ x_indices p = Z.of_nat i
                          /\ y_indices p = Z.of_nat j) pts.

(** [v] is the least element of [zs], +Inf when there is none. *)
Definition is_min_of (zs : list float) (v : float) : Prop :=
  match zs with
  | [] => v = Float.PInf
  | _ => v ∈ zs /\ Forall (fun z => (v <=? z)%F = true) zs
  end.

(** What the scatter leaves at position [k] that held [old]. *)
Definition reduce_at (upd : list (Z * float)) (k : nat) (old : float) : float :=
  fold_left amin (snd <$> filter (fun u => u.1 = Z.of_nat k) upd) old.

(** A finite value of [[-0.5, 0.5]]. *)
Definition in_unit_band (v : float) : Prop :=
  exists q : Qc, v = Float.Fin q /\ (dec (-5) 1 <= q)%Qc /\ (q <= dec 5 1)%Qc.

(** An output value is exactly 0.0 or at least the threshold. *)
Definition zero_or_above (v : float) : Prop :=
  v = Float.zero \/ (min_height <=? v)%F = true.

(** A raw cell is empty (+Inf) or holds a finite height. *)
Definition raw_value (v : float) : Prop :=
  v = Float.PInf \/ Float.isfinite v = true.

(** An offset that step 5 can subtract from +Inf and from a height
    without producing NaN: every number and -Inf, but neither NaN nor
    +Inf. *)
Definition usable_offset (o : float) : bool :=
  match o with
  | Float.NaN | Float.PInf => false
  | _ => true
  end.

Definition zero3 : vec3 := (Float.zero, Float.zero, Float.zero).
Definition nan3 : vec3 := (Float.NaN, Float.NaN, Float.NaN).

(** Ray [r] of an environment replaced, and removed. *)
Definition set_ray (h : EnvData -> vec3) (r : nat) (env : EnvData) : EnvData :=
  mkEnvData (pos_w env) (root_quat_w env) (<[r := h env]> (ray_hits_w env)).

Definition drop_ray (r : nat) (env : EnvData) : EnvData :=
  mkEnvData (pos_w env) (root_quat_w env) (delete r (ray_hits_w env)).

(** The [k]-th bin edge along x: [x_min + k * cell_size] as stored in
    [x_bins]. *)
Definition bin_edge (k : nat) : float :=
  Float.Fin (f32 (range_x.1 + Q2Qc (inject_Z (Z.of_nat k)) * voxel_size_xy)%Qc).

(** An edge tensor in strictly increasing order, as [torch.bucketize]
    expects it. *)
Definition increasing (edges : list float) : Prop :=
  StronglySorted (fun a b => (a <? b)%F = true) edges.

Fixpoint increasingb (edges : list float) : bool :=
  match edges with
  | a :: (b :: _) as tl => (a <? b)%F && increasingb tl
  | _ => true
  end.

(** Bin [b] holds [v] under the right-open convention
    [edge_b <= v < edge_(b+1)], and under the right-closed convention
    [edge_b < v <= edge_(b+1)]; the last bin has no upper edge. *)
Definition in_right_open_bin (bins : list float) (v : float) (b : Z) : Prop :=
  0 <= b /\ exists lo, bins !! Z.to_nat b = Some lo /\ (lo <=? v)%F = true
    /\ forall hi, bins !! S (Z.to_nat b) = Some hi -> (v <? hi)%F = true.

Definition in_right_closed_bin (bins : list float) (v : float) (b : Z) : Prop :=
  0 <= b /\ exists lo, bins !! Z.to_nat b = Some lo /\ (lo <? v)%F = true
    /\ forall hi, bins !! S (Z.to_nat b) = Some hi -> (v <=? hi)%F = true.

(** The grid that is 0.7 on the 3x3 block around cell (13, 13) and 0.0
    elsewhere, row-major. *)
Definition near_13 (i : nat) : bool := (12 <=? i)%nat && (i <=? 14)%nat.

Definition block_grid : list float :=
  i ← seq 0 17; j ← seq 0 27;
  [if near_13 i && near_13 j then Float.Fin (dec 7 1) else Float.zero].

(** Element [k] of row [e] of a returned tensor. *)
Definition output_cell (out : option (list (list float))) (e k : nat)
  : option float :=
  rows ← out; row ← rows !! e; row !! k.

(** The raw grid of one environment, cell by cell in row-major
    order. *)
Definition cell_grid (pts : list vec3) : list float :=
  i ← seq 0 Bx; j ← seq 0 By;
  [fold_left amin (cell_points pts i j) Float.PInf].

(** The output row of one environment, from its lidar-frame points. *)
Definition env_row (offset : float) (pts : list vec3) : list float :=
  max_pool2d (finalize offset <$> cell_grid pts) Bx By.

(** Two environments that differ at most in the order of their rays. *)
Definition same_rays (a b : EnvData) : Prop :=
  pos_w a = pos_w b /\ root_quat_w a = root_quat_w b
  /\ ray_hits_w a ≡ₚ ray_hits_w b.

(** A raw cell is empty or holds a height of the accepted band. *)
Definition height_value (v : float) : Prop :=
  v = Float.PInf
  \/ exists z : Qc, v = Float.Fin z /\ (range_z.1 <= z)%Qc /\ (z <= range_z.2)%Qc.

(** What an output value can be under offset [offset]: 0.0, or a
    height between the threshold and the top of the band. *)
Definition in_output_range (offset v : float) : Prop :=
  v = Float.zero
  \/ ((min_height <=? v)%F = true
      /\ (v <=? (Float.Fin range_z.2 - offset))%F = true).

(** The reading [process_lidar] normalises: height of the sensor above
    the hit, less the offset. *)
Definition lidar_distance (offset pz hz : float) : float :=
  ((pz - hz) - offset)%F.

(** A finite distance cut to [[0, 5]]. *)
Definition clamp_distance (q : Qc) : Qc :=
  if Float.Qcltb q (dec 0 0) then dec 0 0
  else if Float.Qcltb (dec 5 0) q then dec 5 0
  else q.

(** ** Concrete scenes *)

Module Example.

Definition f (n k : Z) : float := Float.Fin (dec n k).

Definition identity_quat : quat := (f 1 0, f 0 0, f 0 0, f 0 0).
Definition origin : vec3 := (f 0 0, f 0 0, f 0 0).
Definition inf3 : vec3 := (Float.PInf, Float.PInf, Float.PInf).

(** For a robot at identity orientation the lidar frame is the mount
    rotation alone: [x' = - a x - b z], [z' = b x - a z] with the two
    coefficients below.  [under_sensor h] is the displacement whose
    image is [(0, 0, h)]. *)
Definition mount_a : Qc := dec 965678 6.
Definition mount_b : Qc := dec 259642 6.
Definition mount_n : Qc := (mount_a * mount_a + mount_b * mount_b)%Qc.

Definition under_sensor (h : Qc) : vec3 :=
  (Float.Fin (h * mount_b / mount_n)%Qc, f 0 0,
   Float.Fin (- (h * mount_a / mount_n))%Qc).

(** A hit far in front of the robot, outside the grid. *)
Definition far_hit : vec3 := (f 100 0, f 0 0, f 0 0).

(** A hit 1.2 straight below the sensor in world coordinates. *)
Definition straight_down : vec3 := (f 0 0, f 0 0, f (-12) 1).

Definition env_of (hits : list vec3) : EnvData :=
  mkEnvData origin identity_quat hits.

Definition isaac_frame : EnvData -> list vec3 :=
  hit_vec_lidar_frame IsaacMath.quat_mul IsaacMath.quat_rotate_inverse.

Definition isaac_height_map : Scene -> float -> option (list (list float)) :=
  height_map_lidar IsaacMath.quat_mul IsaacMath.quat_rotate_inverse.

(** Two environments: two hits in the cell under the sensor and a
    missed ray in the first, one hit in the second. *)
Definition first_env : EnvData :=
  env_of [under_sensor (dec 12 1); under_sensor (dec 9 1); far_hit].

Definition two_envs : Scene := [ first_env; env_of [under_sensor (dec 3 0)] ].

Definition half : float := f 5 1.


(** The single-hit scenario: four rays, one of them hitting at
    lidar-frame (0, 0, 1.2); the other three miss (+Inf), or hit far
    outside the grid.  [world_down] has its hit 1.2 straight below the
    sensor in world coordinates instead. *)
Definition one_hit_three_missed : Scene :=
  [ env_of [under_sensor (dec 12 1); inf3; inf3; inf3] ].
Definition one_hit_three_far : Scene :=
  [ env_of [under_sensor (dec 12 1); far_hit; far_hit; far_hit] ].
Definition world_down : Scene :=
  [ env_of [straight_down; far_hit; far_hit; far_hit] ].

(** A point whose x lies exactly on the [k]-th bin edge. *)
Definition on_edge (k : nat) : vec3 := (bin_edge k, f 0 0, f 1 0).

(** [two_envs] with the first two rays of its first environment
    exchanged. *)
Definition two_envs_swapped : Scene :=
  [ env_of [under_sensor (dec 9 1); under_sensor (dec 12 1); far_hit];
    env_of [under_sensor (dec 3 0)] ].

(** One hit in the cell under the sensor, and a second ray. *)
Definition hit_and (other : vec3) : Scene :=
  [ env_of [under_sensor (dec 12 1); other] ].

End Example.

(** * Properties *)

(** ** Order facts on tensor elements *)

Lemma Qcltb_lt (p q : Qc) : Float.Qcltb p q = true <-> (p < q)%Qc.
Proof.
  unfold Float.Qcltb. rewrite Qclt_alt.
  destruct (p ?= q)%Qc; split; congruence.
Qed.

Lemma Qcltb_ge (p q : Qc) : Float.Qcltb p q = false <-> (q <= p)%Qc.
Proof.
  rewrite <- not_true_iff_false, Qcltb_lt. split.
  - apply Qcnot_lt_le.
  - intros H1 H2. exact (Qcle_not_lt _ _ H1 H2).
Qed.

Lemma ltb_Fin (p q : Qc) :
  (Float.Fin p <? Float.Fin q)%F = true <-> (p < q)%Qc.
Proof. apply Qcltb_lt. Qed.

Lemma leb_Fin (p q : Qc) :
  (Float.Fin p <=? Float.Fin q)%F = true <-> (p <= q)%Qc.
Proof.
  simpl. rewrite negb_true_iff. apply Qcltb_ge.
Qed.

Lemma leb_notnan_l (a b : float) : (a <=? b)%F = true -> Float.isnan a = false.
Proof. destruct a, b; simpl; congruence. Qed.

Lemma leb_notnan_r (a b : float) : (a <=? b)%F = true -> Float.isnan b = false.
Proof. destruct a, b; simpl; congruence. Qed.

Lemma ltb_notnan_l (a b : float) : (a <? b)%F = true -> Float.isnan a = false.
Proof. destruct a, b; simpl; congruence. Qed.

Lemma ltb_notnan_r (a b : float) : (a <? b)%F = true -> Float.isnan b = false.
Proof. destruct a, b; simpl; congruence. Qed.

Lemma leb_refl (a : float) : Float.isnan a = false -> (a <=? a)%F = true.
Proof.
  destruct a; simpl; try congruence. intros _.
  rewrite negb_true_iff. apply Qcltb_ge, Qcle_refl.
Qed.

Lemma leb_negb_ltb (a b : float) :
  Float.isnan a = false -> Float.isnan b = false ->
  (a <=? b)%F = negb (b <? a)%F.
Proof. destruct a, b; simpl; congruence. Qed.

Lemma ltb_leb (a b : float) : (a <? b)%F = true -> (a <=? b)%F = true.
Proof.
  destruct a, b; simpl; try congruence. intros H.
  apply Qcltb_lt in H. rewrite negb_true_iff. apply Qcltb_ge.
  apply Qclt_le_weak, H.
Qed.

Lemma leb_trans (a b c : float) :
  (a <=? b)%F = true -> (b <=? c)%F = true -> (a <=? c)%F = true.
Proof.
  destruct a, b, c; simpl; try congruence.
  rewrite !negb_true_iff, !Qcltb_ge. intros H1 H2.
  exact (Qcle_trans _ _ _ H1 H2).
Qed.

Lemma ltb_leb_trans (a b c : float) :
  (a <? b)%F = true -> (b <=? c)%F = true -> (a <? c)%F = true.
Proof.
  destruct a, b, c; simpl; try congruence.
  rewrite negb_true_iff, Qcltb_ge, !Qcltb_lt. intros H1 H2.
  exact (Qclt_le_trans _ _ _ H1 H2).
Qed.

Lemma leb_total (a b : float) :
  Float.isnan a = false -> Float.isnan b = false ->
  (a <=? b)%F = true \/ (b <? a)%F = true.
Proof.
  intros Ha Hb. rewrite (leb_negb_ltb _ _ Ha Hb).
  destruct (b <? a)%F; auto.
Qed.

(** ** [process_lidar] *)

Ltac qc_eq := apply Qc_is_canon; vm_compute; reflexivity.

Lemma sub_nonfinite_l (a b : float) :
  Float.isfinite a = false -> Float.isfinite (a - b)%F = false.
Proof. destruct a, b; simpl; congruence. Qed.

Lemma sub_nonfinite_r (a b : float) :
  Float.isfinite b = false -> Float.isfinite (a - b)%F = false.
Proof. destruct a, b; simpl; congruence. Qed.

(** After the two masked assignments every element is finite. *)
Lemma fill_far_clip_finite (x : float) :
  exists q, masked_fill Float.isinf far_clip
              (masked_fill Float.isnan far_clip x) = Float.Fin q
            /\ (Float.isfinite x = false -> q = dec 5 0).
Proof.
  destruct x as [| | |q]; simpl.
  - exists (dec 5 0). auto.
  - exists (dec 5 0). auto.
  - exists (dec 5 0). auto.
  - exists q. split; [reflexivity | discriminate].
Qed.

Lemma clip_finite (q : Qc) :
  exists q', clip near_clip far_clip (Float.Fin q) = Float.Fin q'
             /\ (dec 0 0 <= q')%Qc /\ (q' <= dec 5 0)%Qc
             /\ (q = dec 5 0 -> q' = dec 5 0).
Proof.
  unfold clip, near_clip, far_clip. simpl Float.isnan. cbv iota.
  destruct (Float.Fin q <? Float.Fin (dec 0 0))%F eqn:Hlo.
  { exists (dec 0 0). split; [reflexivity|]. split; [|split].
    - apply Qcltb_ge. reflexivity.
    - apply Qcltb_ge. reflexivity.
    - intros ->. apply ltb_Fin in Hlo. apply Qclt_alt in Hlo.
      vm_compute in Hlo. discriminate. }
  unfold Float.gtb.
  destruct (Float.Fin (dec 5 0) <? Float.Fin q)%F eqn:Hhi.
  { exists (dec 5 0). split; [reflexivity|]. split; [|split].
    - apply Qcltb_ge. reflexivity.
    - apply Qcle_refl.
    - reflexivity. }
  exists q. split; [reflexivity|]. split; [|split].
  - apply Qcltb_ge, Hlo.
  - apply Qcltb_ge, Hhi.
  - auto.
Qed.

Lemma far_minus_near : (far_clip - near_clip)%F = Float.Fin (dec 5 0).
Proof. unfold far_clip, near_clip. simpl. f_equal; try qc_eq. Qed.

Lemma normalize_band (q : Qc) :
  (dec 0 0 <= q)%Qc -> (q <= dec 5 0)%Qc ->
  exists r, (((Float.Fin q - near_clip) / (far_clip - near_clip))
              - Float.Fin (dec 5 1))%F = Float.Fin r
            /\ (dec (-5) 1 <= r)%Qc /\ (r <= dec 5 1)%Qc
            /\ (q = dec 5 0 -> r = dec 5 1).
Proof.
  intros H0 H5. rewrite far_minus_near. unfold near_clip.
  simpl.
  eexists. split; [reflexivity|].
  assert (E : ((q + - dec 0 0) / dec 5 0 + - dec 5 1)%Qc
              = (q * dec 2 1 - dec 5 1)%Qc).
  { assert (E5 : (/ dec 5 0)%Qc = dec 2 1) by qc_eq.
    assert (E0 : (- dec 0 0)%Qc = 0%Qc) by qc_eq.
    unfold Qcdiv, Qcminus. rewrite E5, E0, Qcplus_0_r. reflexivity. }
  rewrite E. clear E.
  assert (Hhalf : (dec 5 1 - dec 5 1)%Qc = 0%Qc) by apply Qcplus_opp_r.
  repeat split.
  - assert (E : dec (-5) 1 = (dec 0 0 * dec 2 1 - dec 5 1)%Qc) by qc_eq.
    rewrite E. unfold Qcminus. apply Qcplus_le_mono_r.
    apply Qcmult_le_compat_r; [exact H0|]. apply Qcltb_ge. reflexivity.
  - assert (E : dec 5 1 = (dec 5 0 * dec 2 1 - dec 5 1)%Qc) by qc_eq.
    rewrite E at 2. unfold Qcminus. apply Qcplus_le_mono_r.
    apply Qcmult_le_compat_r; [exact H5|]. apply Qcltb_ge. reflexivity.
  - intros ->. qc_eq.
Qed.

Lemma process_lidar_elem_band (offset pz hz : float) :
  in_unit_band (process_lidar_elem offset pz hz)
  /\ (Float.isfinite hz = false ->
      process_lidar_elem offset pz hz = Float.Fin (dec 5 1)).
Proof.
  unfold process_lidar_elem.
  destruct (fill_far_clip_finite ((pz - hz) - offset)%F) as (q & Eq & Hq).
  cbv zeta. rewrite Eq.
  destruct (clip_finite q) as (q' & Ec & H0 & H5 & Hq').
  rewrite Ec.
  destruct (normalize_band q' H0 H5) as (r & Er & Hlo & Hhi & Hr).
  rewrite Er. split.
  - exists r. auto.
  - intros Hn. f_equal. apply Hr, Hq', Hq.
    apply sub_nonfinite_l, sub_nonfinite_r, Hn.
Qed.

(** ** The range mask *)

Lemma gtb_Fin_inv (a : float) (q : Qc) :
  (a >? Float.Fin q)%F = true ->
  a = Float.PInf \/ exists p, a = Float.Fin p /\ (q < p)%Qc.
Proof.
  unfold Float.gtb. destruct a as [| | |p]; simpl; try congruence; auto.
  intros H. right. exists p. split; [reflexivity|]. apply Qcltb_lt, H.
Qed.

Lemma geb_Fin_inv (a : float) (q : Qc) :
  (a >=? Float.Fin q)%F = true ->
  a = Float.PInf \/ exists p, a = Float.Fin p /\ (q <= p)%Qc.
Proof.
  unfold Float.geb. destruct a as [| | |p]; simpl; try congruence; auto.
  intros H. right. exists p. split; [reflexivity|].
  apply negb_true_iff, Qcltb_ge in H. exact H.
Qed.

Lemma leb_Fin_inv (a : float) (q : Qc) :
  (a <=? Float.Fin q)%F = true ->
  a = Float.NInf \/ exists p, a = Float.Fin p /\ (p <= q)%Qc.
Proof.
  destruct a as [| | |p]; simpl; try congruence; auto.
  intros H. right. exists p. split; [reflexivity|].
  apply negb_true_iff, Qcltb_ge in H. exact H.
Qed.

(** A coordinate that passes a lower and an upper test is finite. *)
Lemma between_open_closed (a : float) (lo hi : Qc) :
  (a >? Float.Fin lo)%F = true /\ (a <=? Float.Fin hi)%F = true <->
  exists p, a = Float.Fin p /\ (lo < p)%Qc /\ (p <= hi)%Qc.
Proof.
  split.
  - intros [H1 H2]. apply gtb_Fin_inv in H1. apply leb_Fin_inv in H2.
    destruct H1 as [-> | (p & -> & Hp)].
    + destruct H2 as [? | (? & ? & _)]; discriminate.
    + destruct H2 as [? | (p' & E & Hp')]; [discriminate|].
      injection E as <-. eauto.
  - intros (p & -> & H1 & H2). split.
    + apply ltb_Fin, H1.
    + apply leb_Fin, H2.
Qed.

Lemma between_closed_closed (a : float) (lo hi : Qc) :
  (a >=? Float.Fin lo)%F = true /\ (a <=? Float.Fin hi)%F = true <->
  exists p, a = Float.Fin p /\ (lo <= p)%Qc /\ (p <= hi)%Qc.
Proof.
  split.
  - intros [H1 H2]. apply geb_Fin_inv in H1. apply leb_Fin_inv in H2.
    destruct H1 as [-> | (p & -> & Hp)].
    + destruct H2 as [? | (? & ? & _)]; discriminate.
    + destruct H2 as [? | (p' & E & Hp')]; [discriminate|].
      injection E as <-. eauto.
  - intros (p & -> & H1 & H2). split.
    + apply (leb_Fin lo p), H1.
    + apply leb_Fin, H2.
Qed.

(** The bounds 0.0 and 5.0 of the height band are float32 values. *)
Lemma f32_range_z : f32 range_z.1 = range_z.1 /\ f32 range_z.2 = range_z.2.
Proof. split; apply Qc_is_canon; vm_compute; reflexivity. Qed.

Lemma valid_indices_spec (p : vec3) :
  valid_indices p = true <->
  exists x y z : Qc,
    p = (Float.Fin x, Float.Fin y, Float.Fin z)
    /\ (f32 range_x.1 < x)%Qc /\ (x <= f32 range_x.2)%Qc
    /\ (f32 range_y.1 < y)%Qc /\ (y <= f32 range_y.2)%Qc
    /\ (range_z.1 <= z)%Qc /\ (z <= range_z.2)%Qc.
Proof.
  destruct p as [[a b] c].
  unfold valid_indices, scalar32, vx, vy, vz. cbn [fst snd].
  destruct f32_range_z as [-> ->].
  rewrite <- !andb_assoc.
  rewrite (andb_assoc (b >? _)%F), (andb_assoc (a >? _)%F).
  rewrite !andb_true_iff, !between_open_closed, between_closed_closed.
  split.
  - intros ((x & -> & ? & ?) & (y & -> & ? & ?) & (z & -> & ? & ?)).
    exists x, y, z. auto 10.
  - intros (x & y & z & E & ? & ? & ? & ? & ? & ?).
    injection E as -> -> ->.
    split; [|split]; eexists; (split; [reflexivity | split; assumption]).
Qed.

(** ** Binning *)

Lemma Bx_eq : Bx = 17%nat.
Proof. vm_compute. reflexivity. Qed.

Lemma By_eq : By = 27%nat.
Proof. vm_compute. reflexivity. Qed.

Lemma arange_head (start stop step : Qc) (n : nat) :
  arange_len start stop step = S n ->
  exists tl, arange start stop step = Float.Fin (f32 start) :: tl
             /\ length tl = n.
Proof.
  intros E. unfold arange. rewrite E. cbn [seq]. rewrite fmap_cons.
  eexists. split.
  - f_equal. f_equal. f_equal. change (Z.of_nat 0) with 0%Z.
    change (Q2Qc (inject_Z 0)) with 0%Qc. ring.
  - rewrite length_fmap, length_seq. reflexivity.
Qed.

Lemma x_bins_head :
  exists tl, x_bins = Float.Fin (f32 range_x.1) :: tl /\ length tl = 16%nat.
Proof. apply arange_head. vm_compute. reflexivity. Qed.

Lemma y_bins_head :
  exists tl, y_bins = Float.Fin (f32 range_y.1) :: tl /\ length tl = 26%nat.
Proof. apply arange_head. vm_compute. reflexivity. Qed.

Lemma bucketize_range (v : float) (l : list float) :
  0 <= bucketize v l <= Z.of_nat (length l).
Proof.
  induction l as [|b l IH]; cbn [bucketize length]; [lia|].
  destruct (negb (b >=? v)%F); lia.
Qed.

(** Every boundary before the returned index lies strictly below the
    value, and the boundary at the returned index does not. *)
Lemma bucketize_below (v : float) (l : list float) (k : nat) (b : float) :
  Z.of_nat k < bucketize v l -> l !! k = Some b -> (b >=? v)%F = false.
Proof.
  revert k. induction l as [|c l IH]; intros k; cbn [bucketize]; [lia|].
  destruct (c >=? v)%F eqn:E; cbn [negb]; [lia|].
  destruct k as [|k]; cbn.
  - intros _ [= <-]. exact E.
  - intros Hk. apply IH. lia.
Qed.

Lemma bucketize_at (v : float) (l : list float) (b : float) :
  l !! Z.to_nat (bucketize v l) = Some b -> (b >=? v)%F = true.
Proof.
  induction l as [|c l IH]; cbn [bucketize]; [discriminate|].
  destruct (c >=? v)%F eqn:E; cbn [negb].
  - cbn. intros [= <-]. exact E.
  - pose proof (bucketize_range v l).
    replace (Z.to_nat (1 + bucketize v l)) with (S (Z.to_nat (bucketize v l)))
      by lia.
    exact IH.
Qed.

Lemma bucketize_first (v : float) (lo : Qc) (q : Qc) (tl : list float) :
  v = Float.Fin q -> (lo < q)%Qc ->
  1 <= bucketize v (Float.Fin lo :: tl).
Proof.
  intros -> Hlt. cbn [bucketize].
  assert (E : (Float.Fin lo >=? Float.Fin q)%F = false).
  { unfold Float.geb. apply not_true_iff_false. rewrite leb_Fin.
    intros H. exact (Qcle_not_lt _ _ H Hlt). }
  rewrite E. cbn [negb]. pose proof (bucketize_range (Float.Fin q) tl). lia.
Qed.

Lemma valid_bins_in_range (p : vec3) :
  valid_indices p = true ->
  0 <= x_indices p < Z.of_nat Bx /\ 0 <= y_indices p < Z.of_nat By.
Proof.
  intros Hv. apply valid_indices_spec in Hv.
  destruct Hv as (x & y & z & -> & Hx & _ & Hy & _).
  unfold x_indices, y_indices, vx, vy, Bx, By. cbn [fst snd].
  destruct x_bins_head as (tx & -> & Hlx).
  destruct y_bins_head as (ty & -> & Hly).
  pose proof (bucketize_first _ _ _ tx eq_refl Hx).
  pose proof (bucketize_first _ _ _ ty eq_refl Hy).
  pose proof (bucketize_range (Float.Fin x) (Float.Fin (f32 range_x.1) :: tx)).
  pose proof (bucketize_range (Float.Fin y) (Float.Fin (f32 range_y.1) :: ty)).
  lia.
Qed.

(** ** The scatter reduction *)

Lemma scatter_reduce_amin_spec (upd : list (Z * float)) :
  forall self : list float,
  Forall (fun u => 0 <= u.1 < Z.of_nat (length self)) upd ->
  exists m, scatter_reduce_amin self upd = Some m
            /\ length m = length self
            /\ forall k, m !! k = reduce_at upd k <$> self !! k.
Proof.
  induction upd as [|[i z] upd IH]; intros self Hall.
  - exists self. split; [reflexivity|]. split; [reflexivity|].
    intros k. unfold reduce_at. cbn. destruct (self !! k); reflexivity.
  - apply Forall_cons in Hall. destruct Hall as [Hi Hall]. cbn [fst] in Hi.
    cbn [scatter_reduce_amin].
    assert (Hlt : (Z.to_nat i < length self)%nat) by lia.
    destruct (lookup_lt_is_Some_2 self _ Hlt) as [old Hold].
    replace ((0 <=? i) && (i <? Z.of_nat (length self))) with true
      by (symmetry; apply andb_true_iff; split; [apply Z.leb_le | apply Z.ltb_lt]; lia).
    rewrite Hold.
    destruct (IH (<[Z.to_nat i := amin old z]> self)) as (m & Hm & Hlen & Hk).
    { rewrite length_insert. exact Hall. }
    exists m. split; [exact Hm|]. split.
    { rewrite Hlen. apply length_insert. }
    intros k. rewrite Hk. unfold reduce_at.
    destruct (decide (k = Z.to_nat i)) as [->|Hne].
    + rewrite list_lookup_insert_eq by exact Hlt. rewrite Hold.
      rewrite filter_cons_True by (cbn; lia). reflexivity.
    + rewrite list_lookup_insert_ne by congruence.
      rewrite filter_cons_False by (cbn; lia). reflexivity.
Qed.

Lemma amin_cases (init z : float) :
  Float.isnan z = false -> Float.isnan init = false ->
  (amin init z = z /\ (z <? init)%F = true)
  \/ (amin init z = init /\ (init <=? z)%F = true).
Proof.
  intros Hz Hi. unfold amin. rewrite Hz.
  destruct (leb_total init z Hi Hz) as [H|H].
  - right. rewrite (leb_negb_ltb _ _ Hi Hz) in H.
    apply negb_true_iff in H. rewrite H. split; [reflexivity|].
    rewrite (leb_negb_ltb _ _ Hi Hz), H. reflexivity.
  - left. rewrite H. auto.
Qed.

Lemma fold_amin_min (zs : list float) :
  forall init,
  Forall (fun z => Float.isnan z = false) zs -> Float.isnan init = false ->
  let r := fold_left amin zs init in
  (r = init \/ r ∈ zs) /\ (r <=? init)%F = true
  /\ Forall (fun z => (r <=? z)%F = true) zs.
Proof.
  induction zs as [|z zs IH]; intros init Hzs Hinit; cbn.
  - split; [auto|]. split; [apply leb_refl, Hinit | constructor].
  - apply Forall_cons in Hzs. destruct Hzs as [Hz Hzs].
    destruct (amin_cases init z Hz Hinit) as [[E Hlt]|[E Hle]]; rewrite E.
    + destruct (IH z Hzs Hz) as (Hin & Hr & Hall).
      split; [|split].
      * right. destruct Hin as [-> | Hin]; [left | right; exact Hin].
      * apply (leb_trans _ z); [exact Hr | apply ltb_leb, Hlt].
      * constructor; assumption.
    + destruct (IH init Hzs Hinit) as (Hin & Hr & Hall).
      split; [|split].
      * destruct Hin as [-> | Hin]; [left; reflexivity | right; right; exact Hin].
      * exact Hr.
      * constructor; [|exact Hall]. apply (leb_trans _ init); assumption.
Qed.

Lemma fold_amin_is_min (zs : list float) :
  Forall (fun z => Float.isfinite z = true) zs ->
  is_min_of zs (fold_left amin zs Float.PInf).
Proof.
  intros Hfin.
  assert (Hnn : Forall (fun z => Float.isnan z = false) zs).
  { eapply Forall_impl; [exact Hfin|]. intros [] ?; cbn in *; congruence. }
  destruct (fold_amin_min zs Float.PInf Hnn eq_refl) as (Hin & _ & Hall).
  destruct zs as [|z zs]; [reflexivity|].
  cbv zeta in Hin. unfold is_min_of. split; [|exact Hall].
  destruct Hin as [E|Hin]; [|exact Hin].
  exfalso. apply Forall_cons in Hall. destruct Hall as [Hle _].
  apply Forall_cons in Hfin. destruct Hfin as [Hz _].
  cbv zeta in E. rewrite E in Hle. destruct z; cbn in *; congruence.
Qed.

(** ** Flat indices are scoped per environment and per cell *)

Lemma linear_indices_inj (e' e i j : nat) (p : vec3) :
  valid_indices p = true -> (i < Bx)%nat -> (j < By)%nat ->
  linear_indices e' p = Z.of_nat (flat_index e i j) <->
  e' = e /\ x_indices p = Z.of_nat i /\ y_indices p = Z.of_nat j.
Proof.
  intros Hv Hi Hj. pose proof (valid_bins_in_range p Hv) as [Hx Hy].
  unfold linear_indices, flat_index. rewrite Bx_eq, By_eq in *.
  lia.
Qed.

Lemma linear_indices_bound (e n : nat) (p : vec3) :
  valid_indices p = true -> (e < n)%nat ->
  0 <= linear_indices e p < Z.of_nat (n * Bx * By).
Proof.
  intros Hv He. pose proof (valid_bins_in_range p Hv) as [Hx Hy].
  unfold linear_indices. rewrite Bx_eq, By_eq in *. lia.
Qed.

Lemma env_updates_cons (e : nat) (p : vec3) (pts : list vec3) :
  env_updates e (p :: pts) =
  if valid_indices p then (linear_indices e p, vz p) :: env_updates e pts
  else env_updates e pts.
Proof.
  unfold env_updates. rewrite filter_cons.
  destruct (valid_indices p) eqn:E.
  - rewrite decide_True by exact I. reflexivity.
  - rewrite decide_False by (intros []). reflexivity.
Qed.

Lemma cell_points_cons (p : vec3) (pts : list vec3) (i j : nat) :
  cell_points (p :: pts) i j =
  if decide (valid_indices p = true /\ x_indices p = Z.of_nat i
             /\ y_indices p = Z.of_nat j)
  then vz p :: cell_points pts i j else cell_points pts i j.
Proof.
  unfold cell_points. rewrite filter_cons.
  destruct (decide (valid_indices p = true /\ _)) as [(Hv & Hx & Hy)|Hn].
  - rewrite decide_True; [reflexivity|]. rewrite Hv. auto.
  - rewrite decide_False; [reflexivity|]. intros (Hv & Hx & Hy). apply Hn.
    split; [|auto]. apply Is_true_true, Hv.
Qed.

Lemma env_updates_filter (e' e i j : nat) (pts : list vec3) :
  (i < Bx)%nat -> (j < By)%nat ->
  snd <$> filter (fun u => u.1 = Z.of_nat (flat_index e i j))
                 (env_updates e' pts)
  = if decide (e' = e) then cell_points pts i j else [].
Proof.
  intros Hi Hj. induction pts as [|p pts IH].
  - cbn. destruct (decide (e' = e)); reflexivity.
  - rewrite env_updates_cons, cell_points_cons.
    destruct (valid_indices p) eqn:Hv.
    + pose proof (linear_indices_inj e' e i j p Hv Hi Hj) as Hinj.
      destruct (decide (linear_indices e' p = Z.of_nat (flat_index e i j)))
        as [Heq|Hne].
      * rewrite filter_cons_True by exact Heq.
        apply Hinj in Heq. destruct Heq as (-> & Hx & Hy).
        rewrite fmap_cons, IH. rewrite !decide_True by auto. reflexivity.
      * rewrite filter_cons_False by exact Hne. rewrite IH.
        destruct (decide (e' = e)) as [->|]; [|reflexivity].
        rewrite decide_False; [reflexivity|].
        intros (_ & Hx & Hy). apply Hne, Hinj. auto.
    + rewrite IH. destruct (decide (e' = e)); [|reflexivity].
      rewrite decide_False; [reflexivity|]. intros (? & _). discriminate.
Qed.

Lemma updates_from_filter (frames : list (list vec3)) :
  forall e0 e i j : nat,
  (i < Bx)%nat -> (j < By)%nat ->
  snd <$> filter (fun u => u.1 = Z.of_nat (flat_index e i j))
                 (updates_from e0 frames)
  = if decide (e0 <= e)%nat
    then from_option (fun pts => cell_points pts i j) [] (frames !! (e - e0)%nat)
    else [].
Proof.
  induction frames as [|pts frames IH]; intros e0 e i j Hi Hj.
  - cbn. destruct (decide (e0 <= e)%nat); reflexivity.
  - cbn [updates_from]. rewrite filter_app, fmap_app.
    rewrite env_updates_filter, IH by assumption.
    destruct (decide (e0 = e)) as [->|Hne].
    + rewrite decide_False by lia. rewrite decide_True by lia.
      rewrite Nat.sub_diag. cbn. apply app_nil_r.
    + destruct (decide (S e0 <= e)%nat) as [Hle|Hgt].
      * rewrite decide_True by lia.
        replace (e - e0)%nat with (S (e - S e0)) by lia. reflexivity.
      * rewrite decide_False by lia. reflexivity.
Qed.

Lemma env_updates_Forall (P : Z * float -> Prop) (e : nat) (pts : list vec3) :
  (forall p, valid_indices p = true -> P (linear_indices e p, vz p)) ->
  Forall P (env_updates e pts).
Proof.
  intros HP. induction pts as [|p pts IH]; [constructor|].
  rewrite env_updates_cons. destruct (valid_indices p) eqn:Hv; [|exact IH].
  constructor; [apply HP, Hv | exact IH].
Qed.

Lemma updates_from_in_range (n : nat) (frames : list (list vec3)) :
  forall e0, (e0 + length frames <= n)%nat ->
  Forall (fun u => 0 <= u.1 < Z.of_nat (n * Bx * By)) (updates_from e0 frames).
Proof.
  induction frames as [|pts frames IH]; intros e0 Hn; [constructor|].
  cbn [updates_from length] in *. apply Forall_app. split.
  - apply env_updates_Forall. intros p Hv. cbn [fst].
    apply linear_indices_bound; [exact Hv | lia].
  - apply IH. lia.
Qed.

(** ** Max pooling *)

Lemma bind_singleton_fmap {A B : Type} (g : A -> B) (l : list A) :
  (x ← l; [g x]) = g <$> l.
Proof.
  induction l as [|a l IH]; [reflexivity|].
  rewrite bind_cons, IH. reflexivity.
Qed.

Lemma bind_rows_lookup {A : Type} (row : nat -> list A) (W : nat) :
  (forall i, length (row i) = W) ->
  forall n s k j, (k < n)%nat -> (j < W)%nat ->
  (i ← seq s n; row i) !! (k * W + j)%nat = row (s + k)%nat !! j.
Proof.
  intros Hrow. induction n as [|n IH]; intros s k j Hk Hj; [lia|].
  cbn [seq]. rewrite bind_cons. destruct k as [|k].
  - rewrite lookup_app_l by (rewrite Hrow; lia).
    rewrite Nat.add_0_r. reflexivity.
  - rewrite lookup_app_r by (rewrite Hrow; lia). rewrite Hrow.
    replace (S k * W + j - W)%nat with (k * W + j)%nat by lia.
    rewrite IH by lia. replace (s + S k)%nat with (S s + k)%nat by lia.
    reflexivity.
Qed.

Lemma bind_rows_length {A : Type} (row : nat -> list A) (W : nat) :
  (forall i, length (row i) = W) ->
  forall n s, length (i ← seq s n; row i) = (n * W)%nat.
Proof.
  intros Hrow. induction n as [|n IH]; intros s; [reflexivity|].
  cbn [seq]. rewrite bind_cons, length_app, Hrow, IH. lia.
Qed.

Lemma max_pool2d_lookup (g : list float) (H W i j : nat) :
  (i < H)%nat -> (j < W)%nat ->
  max_pool2d g H W !! (i * W + j)%nat = Some (max_pool2d_at g H W i j).
Proof.
  intros Hi Hj. unfold max_pool2d.
  rewrite (bind_rows_lookup
             (fun i => j ← seq 0 W; [max_pool2d_at g H W i j]) W).
  - rewrite bind_singleton_fmap, list_lookup_fmap.
    rewrite lookup_seq_lt by exact Hj. reflexivity.
  - intros k. rewrite bind_singleton_fmap, length_fmap. apply length_seq.
  - exact Hi.
  - exact Hj.
Qed.

Lemma max_pool2d_length (g : list float) (H W : nat) :
  length (max_pool2d g H W) = (H * W)%nat.
Proof.
  unfold max_pool2d. apply bind_rows_length.
  intros k. rewrite bind_singleton_fmap, length_fmap. apply length_seq.
Qed.

Lemma max_pool2d_elem (g : list float) (H W : nat) (v : float) :
  v ∈ max_pool2d g H W ->
  exists i j, (i < H)%nat /\ (j < W)%nat /\ v = max_pool2d_at g H W i j.
Proof.
  unfold max_pool2d. intros Hin.
  apply list_elem_of_bind in Hin. destruct Hin as (i & Hin & Hi).
  apply list_elem_of_bind in Hin. destruct Hin as (j & Hin & Hj).
  apply list_elem_of_singleton in Hin.
  apply elem_of_seq in Hi. apply elem_of_seq in Hj.
  exists i, j. repeat split; [lia | lia | exact Hin].
Qed.

Lemma pool_range_self (n i : nat) : (i < n)%nat -> i ∈ pool_range n i.
Proof. intros Hi. unfold pool_range. apply elem_of_seq. lia. Qed.

Lemma pool_range_bound (n i k : nat) : k ∈ pool_range n i -> (k < n)%nat.
Proof. unfold pool_range. rewrite elem_of_seq. lia. Qed.

Lemma pool_range_near (n i k : nat) :
  k ∈ pool_range n i <-> (k < n /\ k <= i + 1 /\ i <= k + 1)%nat.
Proof. unfold pool_range. rewrite elem_of_seq. lia. Qed.

Lemma pool_window_elem (H W i j k : nat) :
  k ∈ pool_window H W i j <->
  exists ih iw, ih ∈ pool_range H i /\ iw ∈ pool_range W j
                /\ k = (ih * W + iw)%nat.
Proof.
  unfold pool_window. rewrite list_elem_of_bind. split.
  - intros (ih & Hin & Hih). apply list_elem_of_bind in Hin.
    destruct Hin as (iw & Hin & Hiw). apply list_elem_of_singleton in Hin.
    eauto.
  - intros (ih & iw & Hih & Hiw & ->). exists ih. split; [|exact Hih].
    apply list_elem_of_bind. exists iw. split; [|exact Hiw].
    apply list_elem_of_singleton. reflexivity.
Qed.

Lemma max_step_cases (maxval val : float) :
  Float.isnan maxval = false -> Float.isnan val = false ->
  (max_step maxval val = val /\ (maxval <=? val)%F = true)
  \/ (max_step maxval val = maxval /\ (val <=? maxval)%F = true).
Proof.
  intros Hm Hv. unfold max_step, Float.gtb. rewrite Hv, orb_false_r.
  destruct (maxval <? val)%F eqn:E.
  - left. split; [reflexivity | apply ltb_leb, E].
  - right. split; [reflexivity|].
    rewrite (leb_negb_ltb _ _ Hv Hm), E. reflexivity.
Qed.

Lemma fold_max_step_spec (vals : list float) :
  forall init,
  Forall (fun v => Float.isnan v = false) vals -> Float.isnan init = false ->
  let r := fold_left max_step vals init in
  (r = init \/ r ∈ vals) /\ (init <=? r)%F = true
  /\ Forall (fun v => (v <=? r)%F = true) vals.
Proof.
  induction vals as [|v vals IH]; intros init Hvs Hinit; cbn.
  - split; [auto|]. split; [apply leb_refl, Hinit | constructor].
  - apply Forall_cons in Hvs. destruct Hvs as [Hv Hvs].
    destruct (max_step_cases init v Hinit Hv) as [[E Hle]|[E Hle]]; rewrite E.
    + destruct (IH v Hvs Hv) as (Hin & Hr & Hall).
      split; [|split].
      * right. destruct Hin as [-> | Hin]; [left | right; exact Hin].
      * apply (leb_trans _ v); assumption.
      * constructor; assumption.
    + destruct (IH init Hvs Hinit) as (Hin & Hr & Hall).
      split; [|split].
      * destruct Hin as [-> | Hin]; [left; reflexivity | right; right; exact Hin].
      * exact Hr.
      * constructor; [|exact Hall]. apply (leb_trans _ init); assumption.
Qed.

Lemma finite_notnan (v : float) :
  Float.isfinite v = true -> Float.isnan v = false.
Proof. destruct v; cbn; congruence. Qed.

Lemma grid_index_lt (H W ih iw : nat) :
  (ih < H)%nat -> (iw < W)%nat -> (ih * W + iw < H * W)%nat.
Proof. nia. Qed.

(** On a grid of finite values the pooled value is one of the grid's
    values and dominates the value at the centre of the window. *)
Lemma max_pool2d_at_spec (g : list float) (H W i j : nat) :
  Forall (fun v => Float.isfinite v = true) g ->
  length g = (H * W)%nat -> (i < H)%nat -> (j < W)%nat ->
  exists c, g !! (i * W + j)%nat = Some c
    /\ max_pool2d_at g H W i j ∈ g
    /\ (c <=? max_pool2d_at g H W i j)%F = true.
Proof.
  intros Hfin Hlen Hi Hj. unfold max_pool2d_at.
  set (vals := (fun k => default Float.NaN (g !! k)) <$> pool_window H W i j).
  assert (Hvals : forall v, v ∈ vals -> v ∈ g).
  { intros v Hv. apply list_elem_of_fmap in Hv. destruct Hv as (k & -> & Hk).
    apply pool_window_elem in Hk. destruct Hk as (ih & iw & Hih & Hiw & ->).
    apply pool_range_bound in Hih, Hiw.
    destruct (lookup_lt_is_Some_2 g (ih * W + iw)%nat) as [v Hv].
    { rewrite Hlen. apply grid_index_lt; assumption. }
    rewrite Hv. cbn. eapply list_elem_of_lookup_2, Hv. }
  assert (Hnn : Forall (fun v => Float.isnan v = false) vals).
  { apply Forall_forall. intros v Hv. apply finite_notnan.
    rewrite Forall_forall in Hfin. apply Hfin, Hvals, Hv. }
  destruct (lookup_lt_is_Some_2 g (i * W + j)%nat) as [c Hc].
  { rewrite Hlen. apply grid_index_lt; assumption. }
  assert (Hcin : c ∈ vals).
  { apply list_elem_of_fmap. exists (i * W + j)%nat. rewrite Hc.
    split; [reflexivity|]. apply pool_window_elem.
    exists i, j. auto using pool_range_self. }
  destruct (fold_max_step_spec vals Float.NInf Hnn eq_refl) as (Hin & _ & Hall).
  cbv zeta in Hin. rewrite Forall_forall in Hall. specialize (Hall c Hcin).
  exists c. split; [exact Hc|]. split; [|exact Hall].
  destruct Hin as [E|Hin]; [|apply Hvals, Hin].
  exfalso. rewrite E in Hall.
  assert (Hcf : Float.isfinite c = true).
  { rewrite Forall_forall in Hfin. eapply Hfin, list_elem_of_lookup_2, Hc. }
  destruct c; cbn in *; congruence.
Qed.

(** ** Values of the flat map *)

Lemma scatter_reduce_amin_Forall (P : float -> Prop) (upd : list (Z * float)) :
  (forall a b, P a -> P b -> P (amin a b)) ->
  Forall (fun u => P u.2) upd ->
  forall self m, Forall P self -> scatter_reduce_amin self upd = Some m ->
  Forall P m.
Proof.
  intros Hamin. induction upd as [|[i z] upd IH]; intros Hupd self m Hself.
  - cbn. intros [= <-]. exact Hself.
  - apply Forall_cons in Hupd. destruct Hupd as [Hz Hupd]. cbn in Hz.
    cbn [scatter_reduce_amin].
    destruct ((0 <=? i) && (i <? Z.of_nat (length self))); [|discriminate].
    destruct (self !! Z.to_nat i) as [old|] eqn:Hold; [|discriminate].
    apply IH; [exact Hupd|]. apply Forall_insert; [exact Hself|].
    apply Hamin; [|exact Hz]. eapply Forall_lookup_1; eassumption.
Qed.

Lemma amin_raw_value (a b : float) :
  raw_value a -> raw_value b -> raw_value (amin a b).
Proof.
  intros Ha [-> | Hb]; unfold amin.
  - destruct a; exact Ha.
  - rewrite (finite_notnan b Hb).
    destruct (b <? a)%F; [right; exact Hb | exact Ha].
Qed.

Lemma updates_from_finite (frames : list (list vec3)) :
  forall e0, Forall (fun u => Float.isfinite u.2 = true) (updates_from e0 frames).
Proof.
  induction frames as [|pts frames IH]; intros e0; [constructor|].
  cbn [updates_from]. apply Forall_app. split; [|apply IH].
  apply env_updates_Forall. intros p Hv. cbn.
  apply valid_indices_spec in Hv. destruct Hv as (x & y & z & -> & _).
  reflexivity.
Qed.

Lemma usable_of_finite (offset : float) :
  Float.isfinite offset = true -> usable_offset offset = true.
Proof. destruct offset; cbn; congruence. Qed.

Lemma finalize_empty (offset : float) :
  usable_offset offset = true -> finalize offset Float.PInf = Float.zero.
Proof. destruct offset; cbn; try discriminate; reflexivity. Qed.

Lemma finalize_settled (offset v : float) :
  usable_offset offset = true -> raw_value v ->
  Float.isfinite (finalize offset v) = true
  /\ zero_or_above (finalize offset v).
Proof.
  intros Ho [-> | Hv].
  - rewrite finalize_empty by exact Ho. split; [reflexivity | left; reflexivity].
  - destruct v as [| | |z]; try discriminate.
    destruct offset as [| | |o]; try discriminate.
    { split; [reflexivity | left; reflexivity]. }
    unfold finalize, where_. cbn [Float.sub Float.opp Float.add].
    destruct (Float.Fin (z + - o) <? min_height)%F eqn:E.
    + split; [reflexivity | left; reflexivity].
    + cbn [Float.isinf]. split; [reflexivity|]. right.
      rewrite leb_negb_ltb by reflexivity. rewrite E. reflexivity.
Qed.

Lemma cell_points_finite (pts : list vec3) (i j : nat) :
  Forall (fun z => Float.isfinite z = true) (cell_points pts i j).
Proof.
  induction pts as [|p pts IH]; [constructor|].
  rewrite cell_points_cons.
  destruct (decide _) as [(Hv & _)|_]; [|exact IH].
  constructor; [|exact IH].
  apply valid_indices_spec in Hv. destruct Hv as (x & y & z & -> & _).
  reflexivity.
Qed.

Lemma flat_index_lt (n e i j : nat) :
  (e < n)%nat -> (i < Bx)%nat -> (j < By)%nat ->
  (flat_index e i j < n * Bx * By)%nat.
Proof. unfold flat_index. rewrite Bx_eq, By_eq. lia. Qed.

(** ** One environment's grid inside the flat map *)

Lemma env_grid_lookup (m : list float) (e k : nat) :
  (k < Bx * By)%nat -> env_grid m e !! k = m !! (e * (Bx * By) + k)%nat.
Proof.
  intros Hk. unfold env_grid.
  rewrite lookup_take_lt by exact Hk. apply lookup_drop.
Qed.

Lemma env_grid_length (m : list float) (n e : nat) :
  length m = (n * Bx * By)%nat -> (e < n)%nat ->
  length (env_grid m e) = (Bx * By)%nat.
Proof.
  intros Hlen He. unfold env_grid. rewrite length_take, length_drop, Hlen.
  rewrite Bx_eq, By_eq. lia.
Qed.

Lemma env_grid_elem (m : list float) (e : nat) (v : float) :
  v ∈ env_grid m e -> v ∈ m.
Proof.
  intros Hv. apply list_elem_of_lookup in Hv. destruct Hv as (k & Hk).
  assert (Hlt : (k < Bx * By)%nat).
  { apply lookup_lt_Some in Hk. unfold env_grid in Hk.
    rewrite length_take in Hk. lia. }
  rewrite env_grid_lookup in Hk by exact Hlt.
  eapply list_elem_of_lookup_2, Hk.
Qed.

Lemma flat_index_split (e i j : nat) :
  flat_index e i j = (e * (Bx * By) + (i * By + j))%nat.
Proof. unfold flat_index. lia. Qed.

(** ** Editing the rays of a scene *)

Lemma sanitize_nan_sub (p : vec3) : vec3_map sanitize (vec3_sub nan3 p) = zero3.
Proof. reflexivity. Qed.

Lemma sanitize_self_sub_elem (c : float) : sanitize (c - c)%F = Float.zero.
Proof.
  destruct c as [| | |q]; try reflexivity.
  cbn. unfold Float.zero, Float.of_Q. f_equal. apply Qcplus_opp_r.
Qed.

Lemma sanitize_self_sub (p : vec3) : vec3_map sanitize (vec3_sub p p) = zero3.
Proof.
  destruct p as [[a b] c]. unfold vec3_map, vec3_sub, vx, vy, vz, zero3.
  cbn [fst snd]. rewrite !sanitize_self_sub_elem. reflexivity.
Qed.

Lemma hit_vec_set_ray (h : EnvData -> vec3) (r : nat) (env : EnvData) :
  hit_vec (set_ray h r env)
  = <[r := vec3_map sanitize (vec3_sub (h env) (pos_w env))]> (hit_vec env).
Proof.
  unfold hit_vec, set_ray. cbn.
  apply (list_fmap_insert (fun h0 => vec3_map sanitize (vec3_sub h0 (pos_w env)))).
Qed.

Lemma hit_vec_drop_ray (r : nat) (env : EnvData) :
  hit_vec (drop_ray r env) = delete r (hit_vec env).
Proof.
  unfold hit_vec, drop_ray. cbn.
  apply (list_fmap_delete (fun h0 => vec3_map sanitize (vec3_sub h0 (pos_w env)))).
Qed.

Lemma env_updates_app (e : nat) (l1 l2 : list vec3) :
  env_updates e (l1 ++ l2) = env_updates e l1 ++ env_updates e l2.
Proof. unfold env_updates. rewrite filter_app, fmap_app. reflexivity. Qed.

Lemma env_updates_skip (e : nat) (p : vec3) (l1 l2 : list vec3) :
  valid_indices p = false ->
  env_updates e (l1 ++ p :: l2) = env_updates e (l1 ++ l2).
Proof.
  intros Hp. rewrite !env_updates_app, env_updates_cons, Hp. reflexivity.
Qed.


Lemma env_updates_insert_invalid (e r : nat) (p : vec3) (l : list vec3) :
  valid_indices p = false ->
  env_updates e (<[r := p]> l) = env_updates e (delete r l).
Proof.
  intros Hp. destruct (decide (r < length l)%nat) as [Hlt|Hge].
  - rewrite insert_take_drop by exact Hlt. rewrite delete_take_drop.
    apply env_updates_skip, Hp.
  - rewrite list_insert_ge by lia. rewrite delete_take_drop.
    rewrite take_ge, drop_ge by lia. rewrite app_nil_r. reflexivity.
Qed.

Section HeightMapProperties.

Variable quat_mul : quat -> quat -> quat.
Variable quat_rotate_inverse : quat -> vec3 -> vec3.

Local Abbreviation frame := (hit_vec_lidar_frame quat_mul quat_rotate_inverse).
Local Abbreviation raw := (raw_map quat_mul quat_rotate_inverse).
Local Abbreviation step5 := (map_2_5D quat_mul quat_rotate_inverse).
Local Abbreviation run := (height_map_lidar quat_mul quat_rotate_inverse).

(** The scatter never indexes out of bounds, and leaves in every cell
    the fold of [amin] over that cell's points, from +Inf. *)
Lemma raw_map_spec (scene : Scene) :
  exists m, raw scene = Some m
    /\ length m = (length scene * Bx * By)%nat
    /\ forall e env i j,
         scene !! e = Some env -> (i < Bx)%nat -> (j < By)%nat ->
         m !! flat_index e i j
         = Some (fold_left amin (cell_points (frame env) i j) Float.PInf).
Proof.
  unfold raw_map, scatter_updates.
  destruct (scatter_reduce_amin_spec
              (updates_from 0 (frame <$> scene))
              (replicate (length scene * Bx * By) Float.PInf))
    as (m & Hm & Hlen & Hk).
  { rewrite length_replicate. apply updates_from_in_range.
    rewrite length_fmap. lia. }
  exists m. split; [exact Hm|]. rewrite length_replicate in Hlen.
  split; [exact Hlen|].
  intros e env i j He Hi Hj. rewrite Hk.
  pose proof (lookup_lt_Some _ _ _ He) as Hlt.
  rewrite lookup_replicate_2 by (apply flat_index_lt; assumption).
  cbn. unfold reduce_at. rewrite updates_from_filter by assumption.
  rewrite decide_True by lia. rewrite Nat.sub_0_r, list_lookup_fmap, He.
  reflexivity.
Qed.

Lemma height_map_lidar_total (scene : Scene) (offset : float) :
  exists m, raw scene = Some m
    /\ step5 scene offset = Some (finalize offset <$> m)
    /\ run scene offset
       = Some (max_across_frames (length scene) (finalize offset <$> m)).
Proof.
  destruct (raw_map_spec scene) as (m & Hm & _).
  exists m. unfold height_map_lidar, map_2_5D. rewrite Hm. auto.
Qed.

Lemma raw_map_values (scene : Scene) (m : list float) :
  raw scene = Some m -> Forall raw_value m.
Proof.
  unfold raw_map. apply scatter_reduce_amin_Forall.
  - exact amin_raw_value.
  - eapply Forall_impl; [apply updates_from_finite|].
    intros u Hu. right. exact Hu.
  - apply Forall_replicate. left. reflexivity.
Qed.

(** The whole pipeline under an offset other than NaN and +Inf: the
    flat map after step 5 holds finite values that are 0.0 or at least
    the threshold, and every pooled value is one of them and dominates
    the value it replaces. *)
Lemma pooled_spec (scene : Scene) (offset : float) :
  usable_offset offset = true ->
  exists m5 out,
    step5 scene offset = Some m5 /\ run scene offset = Some out
    /\ length m5 = (length scene * Bx * By)%nat
    /\ Forall (fun v => Float.isfinite v = true /\ zero_or_above v) m5
    /\ length out = length scene
    /\ forall e, (e < length scene)%nat ->
       exists row, out !! e = Some row
         /\ length row = (Bx * By)%nat
         /\ Forall (fun v => v ∈ m5) row
         /\ forall i j, (i < Bx)%nat -> (j < By)%nat ->
            exists pre post,
              m5 !! flat_index e i j = Some pre
              /\ row !! (i * By + j)%nat = Some post
              /\ (pre <=? post)%F = true.
Proof.
  intros Ho.
  destruct (height_map_lidar_total scene offset) as (m & Hraw & H5 & Hrun).
  destruct (raw_map_spec scene) as (m' & Hraw' & Hlen & _).
  rewrite Hraw in Hraw'. injection Hraw' as <-.
  set (m5 := finalize offset <$> m) in *.
  assert (Hlen5 : length m5 = (length scene * Bx * By)%nat).
  { unfold m5. rewrite length_fmap. exact Hlen. }
  assert (Hset : Forall (fun v => Float.isfinite v = true /\ zero_or_above v) m5).
  { unfold m5. apply Forall_fmap.
    eapply Forall_impl; [apply (raw_map_values scene m Hraw)|].
    intros v Hv. apply finalize_settled; assumption. }
  exists m5, (max_across_frames (length scene) m5).
  split; [exact H5|]. split; [exact Hrun|]. split; [exact Hlen5|].
  split; [exact Hset|]. split.
  { unfold max_across_frames. rewrite length_fmap. apply length_seq. }
  intros e He. exists (max_pool2d (env_grid m5 e) Bx By).
  assert (Hg : length (env_grid m5 e) = (Bx * By)%nat)
    by (eapply env_grid_length; eassumption).
  assert (Hgf : Forall (fun v => Float.isfinite v = true) (env_grid m5 e)).
  { apply Forall_forall. intros v Hv. apply env_grid_elem in Hv.
    rewrite Forall_forall in Hset. apply Hset, Hv. }
  split.
  { unfold max_across_frames. rewrite list_lookup_fmap.
    rewrite lookup_seq_lt by exact He. reflexivity. }
  split; [apply max_pool2d_length|]. split.
  - apply Forall_forall. intros v Hv.
    apply max_pool2d_elem in Hv. destruct Hv as (i & j & Hi & Hj & ->).
    destruct (max_pool2d_at_spec _ Bx By i j Hgf Hg Hi Hj) as (c & _ & Hin & _).
    eapply env_grid_elem, Hin.
  - intros i j Hi Hj.
    destruct (max_pool2d_at_spec _ Bx By i j Hgf Hg Hi Hj) as (c & Hc & _ & Hle).
    exists c, (max_pool2d_at (env_grid m5 e) Bx By i j).
    split; [|split; [apply max_pool2d_lookup; assumption | exact Hle]].
    rewrite flat_index_split, <- env_grid_lookup; [exact Hc|].
    apply grid_index_lt; assumption.
Qed.

Lemma frame_set_ray (h : EnvData -> vec3) (r : nat) (env : EnvData) :
  frame (set_ray h r env)
  = <[r := quat_rotate_inverse (sensor_quat_w quat_mul env)
             (vec3_map sanitize (vec3_sub (h env) (pos_w env)))]> (frame env).
Proof.
  unfold hit_vec_lidar_frame. rewrite hit_vec_set_ray.
  apply (list_fmap_insert (quat_rotate_inverse (sensor_quat_w quat_mul env))).
Qed.

Lemma frame_drop_ray (r : nat) (env : EnvData) :
  frame (drop_ray r env) = delete r (frame env).
Proof.
  unfold hit_vec_lidar_frame. rewrite hit_vec_drop_ray.
  apply (list_fmap_delete (quat_rotate_inverse (sensor_quat_w quat_mul env))).
Qed.

(** Editing one environment in a way that keeps its scatter updates
    keeps the updates of the whole batch. *)
Lemma updates_from_alter_ext (g g' : EnvData -> EnvData) (scene : Scene) :
  forall e0 e,
  (forall env, scene !! e = Some env ->
     forall k, env_updates k (frame (g env)) = env_updates k (frame (g' env))) ->
  updates_from e0 (frame <$> alter g e scene)
  = updates_from e0 (frame <$> alter g' e scene).
Proof.
  induction scene as [|x scene IH]; intros e0 e Hext; [reflexivity|].
  destruct e as [|e]; cbn.
  - rewrite (Hext x eq_refl). reflexivity.
  - f_equal. apply IH. intros env He. apply Hext. exact He.
Qed.

Lemma run_ext (s1 s2 : Scene) (offset : float) :
  length s1 = length s2 ->
  updates_from 0 (frame <$> s1) = updates_from 0 (frame <$> s2) ->
  raw s1 = raw s2 /\ run s1 offset = run s2 offset.
Proof.
  intros Hlen Hupd.
  unfold height_map_lidar, map_2_5D, raw_map, scatter_updates.
  rewrite Hlen, Hupd. auto.
Qed.

(** C1, as the code has it.  For every environment [e] and cell
    [(i, j)] the raw map holds, at flat index
    [e * Bx * By + i * By + j], the minimum lidar-frame z of the
    surviving points of that environment binned into the cell, and
    +Inf when there is none.  Under an offset other than NaN and +Inf
    an empty cell reads 0.0 in the map after step 5; the returned
    tensor holds the pooled value at that cell, which is at least 0.0
    and need not be 0.0.  The raw value is the same in every batch that
    holds this environment's data at index [e], whatever the other
    environments contain. *)
Theorem raw_height_is_cell_minimum
  (scene : Scene) (offset : float) (e i j : nat) (env : EnvData) :
  scene !! e = Some env -> (i < Bx)%nat -> (j < By)%nat ->
  exists m m5 v,
    raw scene = Some m /\ step5 scene offset = Some m5
    /\ m !! flat_index e i j = Some v
    /\ is_min_of (cell_points (frame env) i j) v
    /\ (cell_points (frame env) i j = [] ->
        v = Float.PInf
        /\ (usable_offset offset = true ->
            m5 !! flat_index e i j = Some Float.zero
            /\ exists out row post,
                 run scene offset = Some out /\ out !! e = Some row
                 /\ row !! (i * By + j)%nat = Some post
                 /\ (Float.zero <=? post)%F = true))
    /\ (forall scene' : Scene, scene' !! e = Some env ->
        exists m', raw scene' = Some m' /\ m' !! flat_index e i j = Some v).
Proof.
  intros He Hi Hj.
  destruct (height_map_lidar_total scene offset) as (m & Hraw & H5 & _).
  destruct (raw_map_spec scene) as (m0 & Hraw0 & _ & Hcell).
  rewrite Hraw in Hraw0. injection Hraw0 as <-.
  specialize (Hcell e env i j He Hi Hj).
  exists m, (finalize offset <$> m),
    (fold_left amin (cell_points (frame env) i j) Float.PInf).
  split; [exact Hraw|]. split; [exact H5|]. split; [exact Hcell|].
  split; [apply fold_amin_is_min, cell_points_finite|]. split.
  - intros Hnil. rewrite Hnil. cbn [fold_left]. split; [reflexivity|].
    intros Ho.
    assert (Hzero : (finalize offset <$> m) !! flat_index e i j
                    = Some Float.zero).
    { rewrite list_lookup_fmap, Hcell, Hnil. cbn [fold_left fmap option_fmap option_map].
      rewrite finalize_empty by exact Ho. reflexivity. }
    split; [exact Hzero|].
    destruct (pooled_spec scene offset Ho)
      as (m5 & out & H5' & Hrun & _ & _ & _ & Hrows).
    rewrite H5 in H5'. injection H5' as <-.
    destruct (Hrows e (lookup_lt_Some _ _ _ He)) as (row & Hrow & _ & _ & Hcells).
    destruct (Hcells i j Hi Hj) as (pre & post & Hpre & Hpost & Hle).
    rewrite Hzero in Hpre. injection Hpre as <-.
    exists out, row, post. split; [exact Hrun|]. split; [exact Hrow|].
    split; [exact Hpost | exact Hle].
  - intros scene' He'.
    destruct (raw_map_spec scene') as (m' & Hraw' & _ & Hcell').
    exists m'. split; [exact Hraw'|]. apply Hcell'; assumption.
Qed.

(** C2, as the code has it.  Under an offset other than NaN and +Inf
    the call returns, and every value of the returned tensor is exactly
    0.0 or at least 0.05; step 5 sends every height that is below 0.05
    after the offset to exactly 0.0. *)
Theorem output_zero_or_at_least_threshold (scene : Scene) (offset : float) :
  usable_offset offset = true ->
  (exists out, run scene offset = Some out
     /\ Forall (Forall zero_or_above) out)
  /\ (forall v, ((v - offset) <? min_height)%F = true ->
      finalize offset v = Float.zero).
Proof.
  intros Ho. split.
  - destruct (pooled_spec scene offset Ho)
      as (m5 & out & _ & Hrun & _ & Hset & Hlen & Hrows).
    exists out. split; [exact Hrun|].
    apply Forall_lookup. intros e row Hrow.
    destruct (Hrows e) as (row' & Hrow' & _ & Hin & _).
    { rewrite <- Hlen. eapply lookup_lt_Some, Hrow. }
    rewrite Hrow in Hrow'. injection Hrow' as <-.
    eapply Forall_impl; [exact Hin|]. intros v Hv.
    rewrite Forall_forall in Hset. apply (Hset v Hv).
  - intros v Hlt. unfold finalize, where_. rewrite Hlt. reflexivity.
Qed.

(** C3, as the code has it.  Under an offset other than NaN and +Inf
    the call returns a tensor of shape [num_envs, Bx * By] without NaN
    and without infinite values, whatever the ray hits, sensor
    positions and orientations are. *)
Theorem output_has_no_nan_or_inf (scene : Scene) (offset : float) :
  usable_offset offset = true ->
  exists out, run scene offset = Some out
    /\ length out = length scene
    /\ Forall (fun row => length row = (Bx * By)%nat
                 /\ Forall (fun v => Float.isnan v = false
                                     /\ Float.isinf v = false) row) out.
Proof.
  intros Ho.
  destruct (pooled_spec scene offset Ho)
    as (m5 & out & _ & Hrun & _ & Hset & Hlen & Hrows).
  exists out. split; [exact Hrun|]. split; [exact Hlen|].
  apply Forall_lookup. intros e row Hrow.
  destruct (Hrows e) as (row' & Hrow' & Hl & Hin & _).
  { rewrite <- Hlen. eapply lookup_lt_Some, Hrow. }
  rewrite Hrow in Hrow'. injection Hrow' as <-.
  split; [exact Hl|].
  eapply Forall_impl; [exact Hin|]. intros v Hv.
  rewrite Forall_forall in Hset. destruct (Hset v Hv) as [Hf _].
  destruct v; cbn in *; auto; discriminate.
Qed.

(** C7, as the code has it.  Under an offset other than NaN and +Inf,
    for every environment and cell the value after the 3x3 max-pool is
    greater than or equal to the value of that cell before the
    pooling. *)
Theorem max_pool_dominates_pre_pool
  (scene : Scene) (offset : float) (e i j : nat) :
  usable_offset offset = true ->
  (e < length scene)%nat -> (i < Bx)%nat -> (j < By)%nat ->
  exists m5 out row pre post,
    step5 scene offset = Some m5 /\ run scene offset = Some out
    /\ out !! e = Some row
    /\ m5 !! flat_index e i j = Some pre
    /\ row !! (i * By + j)%nat = Some post
    /\ (pre <=? post)%F = true.
Proof.
  intros Ho He Hi Hj.
  destruct (pooled_spec scene offset Ho)
    as (m5 & out & H5 & Hrun & _ & _ & _ & Hrows).
  destruct (Hrows e He) as (row & Hrow & _ & _ & Hcells).
  destruct (Hcells i j Hi Hj) as (pre & post & Hpre & Hpost & Hle).
  exists m5, out, row, pre, post. auto 10.
Qed.


(** C4, as the code has it.  A ray whose world coordinates are NaN
    gives the same output as a ray that hits the sensor origin: both
    are the zero displacement.  The output is that of the batch
    without the ray whenever the rotated zero displacement fails the
    mask; the zero vector itself passes it and is binned into the cell
    under the sensor, flat index 13 * By + 13, with height 0. *)
Theorem nan_ray_is_zero_displacement
  (scene : Scene) (offset : float) (e r : nat) (env : EnvData) :
  scene !! e = Some env ->
  run (alter (set_ray (fun _ => nan3) r) e scene) offset
  = run (alter (set_ray pos_w r) e scene) offset
  /\ (valid_indices (quat_rotate_inverse (sensor_quat_w quat_mul env) zero3)
      = false ->
      run (alter (set_ray (fun _ => nan3) r) e scene) offset
      = run (alter (drop_ray r) e scene) offset)
  /\ valid_indices zero3 = true
  /\ linear_indices 0 zero3 = 364.
Proof.
  intros He. split; [|split; [|split]].
  - apply run_ext; [rewrite !length_alter; reflexivity|].
    apply updates_from_alter_ext. intros env' _ k.
    rewrite !frame_set_ray, sanitize_nan_sub, sanitize_self_sub. reflexivity.
  - intros Hz. apply run_ext; [rewrite !length_alter; reflexivity|].
    apply updates_from_alter_ext. intros env' He' k.
    rewrite He in He'. injection He' as <-.
    rewrite frame_set_ray, frame_drop_ray, sanitize_nan_sub.
    apply env_updates_insert_invalid, Hz.
  - vm_compute. reflexivity.
  - vm_compute. reflexivity.
Qed.

(** C8, as the code has it.  For a single environment in which the
    only point that passes the mask is the lidar-frame point
    (0, 0, 1.2), and offset 0.5, the call returns one row of
    17 * 27 = 459 values: 0.7 on cell (13, 13) and its eight
    neighbours, 0.0 everywhere else. *)
Theorem single_hit_scenario (env : EnvData) :
  filter valid_indices (frame env)
  = [(Float.Fin (dec 0 0), Float.Fin (dec 0 0), Float.Fin (dec 12 1))] ->
  run [env] (Float.Fin (dec 5 1)) = Some [block_grid]
  /\ length block_grid = (Bx * By)%nat /\ Bx = 17%nat /\ By = 27%nat
  /\ block_grid !! (13 * 27 + 13)%nat = Some (Float.Fin (dec 7 1)).
Proof.
  intros Hf. split; [|split; [|split; [|split]]].
  - unfold height_map_lidar, map_2_5D, raw_map, scatter_updates.
    cbn [fmap list_fmap updates_from length]. unfold env_updates.
    rewrite Hf. apply (bool_decide_unpack _). vm_compute. reflexivity.
  - vm_compute. reflexivity.
  - exact Bx_eq.
  - exact By_eq.
  - apply (bool_decide_unpack _). vm_compute. reflexivity.
Qed.

End HeightMapProperties.


Lemma cell_13_in_grid : (13 < Bx)%nat /\ (13 < By)%nat.
Proof. rewrite Bx_eq, By_eq. lia. Qed.

(** C1, as stated, fails on the returned tensor.  Cell (12, 12) of the
    first environment of [two_envs] holds no point and reads 0.0 after
    step 5, yet the returned tensor holds 0.4 there: the max-pool
    copies the height 0.9 - 0.5 of the neighbouring cell (13, 13).
    Under the offset NaN the empty cell is NaN already after step 5. *)
Lemma empty_cell_nonzero_in_output :
  cell_points (Example.isaac_frame Example.first_env) 12 12 = []
  /\ (m5 ← map_2_5D IsaacMath.quat_mul IsaacMath.quat_rotate_inverse
                    Example.two_envs Example.half;
      m5 !! flat_index 0 12 12) = Some Float.zero
  /\ output_cell (Example.isaac_height_map Example.two_envs Example.half)
                 0 (12 * 27 + 12) = Some (Example.f 4 1)
  /\ Example.f 4 1 <> Float.zero
  /\ (m5 ← map_2_5D IsaacMath.quat_mul IsaacMath.quat_rotate_inverse
                    Example.two_envs Float.NaN;
      m5 !! flat_index 0 12 12) = Some Float.NaN.
Proof.
  split; [vm_compute; reflexivity|].
  split; [apply (bool_decide_unpack _); vm_compute; reflexivity|].
  split; [apply (bool_decide_unpack _); vm_compute; reflexivity|].
  split; [apply (bool_decide_eq_false_1 _); vm_compute; reflexivity|].
  apply (bool_decide_unpack _); vm_compute; reflexivity.
Qed.

Lemma raw_height_is_cell_minimum_witness :
  Example.two_envs !! 0%nat = Some Example.first_env
  /\ (13 < Bx)%nat /\ (13 < By)%nat
  /\ exists m v,
       raw_map IsaacMath.quat_mul IsaacMath.quat_rotate_inverse
               Example.two_envs = Some m
       /\ m !! flat_index 0 13 13 = Some v
       /\ is_min_of (cell_points (Example.isaac_frame Example.first_env) 13 13) v.
Proof.
  destruct cell_13_in_grid as [Hx Hy].
  split; [reflexivity|]. split; [exact Hx|]. split; [exact Hy|].
  destruct (raw_height_is_cell_minimum
              IsaacMath.quat_mul IsaacMath.quat_rotate_inverse
              Example.two_envs Example.half 0 13 13 Example.first_env
              eq_refl Hx Hy)
    as (m & m5 & v & Hraw & _ & Hv & Hmin & _).
  exists m, v. split; [exact Hraw|]. split; [exact Hv | exact Hmin].
Defined.

(** C2, as stated, fails: under the offset NaN, and under the offset
    +Inf, every value of the returned tensor is NaN, which is neither
    0.0 nor at least 0.05. *)
Lemma nan_offset_output_not_settled :
  Example.isaac_height_map Example.two_envs Float.NaN
  = Some (replicate 2 (replicate 459 Float.NaN))
  /\ Example.isaac_height_map Example.two_envs Float.PInf
     = Some (replicate 2 (replicate 459 Float.NaN))
  /\ ~ zero_or_above Float.NaN.
Proof.
  split; [apply (bool_decide_unpack _); vm_compute; reflexivity|].
  split; [apply (bool_decide_unpack _); vm_compute; reflexivity|].
  intros [H|H]; discriminate H.
Qed.

Lemma output_zero_or_at_least_threshold_witness :
  usable_offset Example.half = true
  /\ exists out, Example.isaac_height_map Example.two_envs Example.half = Some out
       /\ Forall (Forall zero_or_above) out.
Proof.
  split; [reflexivity|].
  exact (proj1 (output_zero_or_at_least_threshold
                  IsaacMath.quat_mul IsaacMath.quat_rotate_inverse
                  Example.two_envs Example.half eq_refl)).
Defined.

(** C3, as stated, fails: under the offset NaN, and under the offset
    +Inf, the call returns a tensor all of whose values are NaN. *)
Lemma nan_offset_output_is_nan :
  (exists out, Example.isaac_height_map Example.two_envs Float.NaN = Some out
     /\ length out = 2%nat
     /\ Forall (Forall (fun v => Float.isnan v = true)) out)
  /\ exists out, Example.isaac_height_map Example.two_envs Float.PInf = Some out
     /\ length out = 2%nat
     /\ Forall (Forall (fun v => Float.isnan v = true)) out.
Proof.
  split; exists (replicate 2 (replicate 459 Float.NaN));
    (split; [apply (bool_decide_unpack _); vm_compute; reflexivity|]);
    (split; [reflexivity|]);
    apply Forall_replicate, Forall_replicate; reflexivity.
Qed.

Lemma output_has_no_nan_or_inf_witness :
  usable_offset Example.half = true
  /\ exists out, Example.isaac_height_map Example.two_envs Example.half = Some out
       /\ length out = length Example.two_envs
       /\ Forall (fun row => length row = (Bx * By)%nat
                    /\ Forall (fun v => Float.isnan v = false
                                        /\ Float.isinf v = false) row) out.
Proof.
  split; [reflexivity|].
  exact (output_has_no_nan_or_inf
           IsaacMath.quat_mul IsaacMath.quat_rotate_inverse
           Example.two_envs Example.half eq_refl).
Defined.

(** C7, as stated, fails.  Under the offset NaN the cell under the
    sensor is NaN before and after the pooling, and NaN >= NaN does
    not hold; under the offset +Inf it is 0.0 before the pooling and
    NaN after it. *)
Lemma nan_offset_pool_not_above :
  (m5 ← map_2_5D IsaacMath.quat_mul IsaacMath.quat_rotate_inverse
                 Example.two_envs Float.NaN;
   m5 !! flat_index 0 13 13) = Some Float.NaN
  /\ output_cell (Example.isaac_height_map Example.two_envs Float.NaN)
                 0 (13 * 27 + 13) = Some Float.NaN
  /\ (Float.NaN <=? Float.NaN)%F = false
  /\ (m5 ← map_2_5D IsaacMath.quat_mul IsaacMath.quat_rotate_inverse
                    Example.two_envs Float.PInf;
      m5 !! flat_index 0 13 13) = Some Float.zero
  /\ output_cell (Example.isaac_height_map Example.two_envs Float.PInf)
                 0 (13 * 27 + 13) = Some Float.NaN
  /\ (Float.zero <=? Float.NaN)%F = false.
Proof.
  split; [apply (bool_decide_unpack _); vm_compute; reflexivity|].
  split; [apply (bool_decide_unpack _); vm_compute; reflexivity|].
  split; [reflexivity|].
  split; [apply (bool_decide_unpack _); vm_compute; reflexivity|].
  split; [apply (bool_decide_unpack _); vm_compute; reflexivity|].
  reflexivity.
Qed.

Lemma max_pool_dominates_pre_pool_witness :
  usable_offset Example.half = true
  /\ (1 < length Example.two_envs)%nat /\ (13 < Bx)%nat /\ (13 < By)%nat
  /\ exists m5 out row pre post,
       map_2_5D IsaacMath.quat_mul IsaacMath.quat_rotate_inverse
                Example.two_envs Example.half = Some m5
       /\ Example.isaac_height_map Example.two_envs Example.half = Some out
       /\ out !! 1%nat = Some row
       /\ m5 !! flat_index 1 13 13 = Some pre
       /\ row !! (13 * By + 13)%nat = Some post
       /\ (pre <=? post)%F = true.
Proof.
  destruct cell_13_in_grid as [Hx Hy].
  assert (Hn : (1 < length Example.two_envs)%nat) by (cbn; lia).
  split; [reflexivity|]. split; [exact Hn|]. split; [exact Hx|].
  split; [exact Hy|].
  exact (max_pool_dominates_pre_pool
           IsaacMath.quat_mul IsaacMath.quat_rotate_inverse
           Example.two_envs Example.half 1 13 13 eq_refl Hn Hx Hy).
Defined.

(** C10.  Every value returned by [process_lidar] is a finite number of
    [[-0.5, 0.5]], for every scene and every offset; the entry of a
    ray whose hit height is NaN or infinite is exactly 0.5. *)
Theorem process_lidar_range
  (scene : Scene) (offset : float) (e r : nat) (env : EnvData) (h : vec3) :
  scene !! e = Some env -> ray_hits_w env !! r = Some h ->
  Forall (Forall in_unit_band) (process_lidar scene offset)
  /\ exists row v,
       process_lidar scene offset !! e = Some row /\ row !! r = Some v
       /\ (Float.isfinite (vz h) = false -> v = Float.Fin (dec 5 1)).
Proof.
  intros He Hr. split.
  - unfold process_lidar. apply Forall_fmap, Forall_forall. intros env' _.
    apply Forall_fmap, Forall_forall. intros h' _.
    apply process_lidar_elem_band.
  - unfold process_lidar. rewrite list_lookup_fmap, He. cbn.
    eexists _, _. split; [reflexivity|].
    rewrite list_lookup_fmap, Hr. cbn. split; [reflexivity|].
    apply process_lidar_elem_band.
Qed.

Lemma process_lidar_range_witness :
  [Example.env_of [Example.straight_down; Example.inf3]] !! 0%nat
    = Some (Example.env_of [Example.straight_down; Example.inf3])
  /\ ray_hits_w (Example.env_of [Example.straight_down; Example.inf3]) !! 1%nat
     = Some Example.inf3
  /\ Forall (Forall in_unit_band)
       (process_lidar [Example.env_of [Example.straight_down; Example.inf3]]
                      Example.half)
  /\ exists row v,
       process_lidar [Example.env_of [Example.straight_down; Example.inf3]]
                     Example.half !! 0%nat = Some row
       /\ row !! 1%nat = Some v
       /\ (Float.isfinite (vz Example.inf3) = false -> v = Float.Fin (dec 5 1)).
Proof.
  split; [reflexivity|]. split; [reflexivity|].
  exact (process_lidar_range
           [Example.env_of [Example.straight_down; Example.inf3]]
           Example.half 0 1 _ Example.inf3 eq_refl eq_refl).
Defined.


(** C4, as stated, fails: with one hit of height 1.2 in the cell under
    the sensor and a second ray set to NaN, that cell reads 0.0; with
    the second ray removed it reads 0.7. *)
Lemma nan_ray_differs_from_removed_ray :
  output_cell
    (Example.isaac_height_map
       (alter (set_ray (fun _ => nan3) 1) 0%nat (Example.hit_and Example.far_hit))
       Example.half) 0 364 = Some Float.zero
  /\ output_cell
       (Example.isaac_height_map
          (alter (drop_ray 1) 0%nat (Example.hit_and Example.far_hit))
          Example.half) 0 364 = Some (Example.f 7 1)
  /\ Example.isaac_height_map
       (alter (set_ray (fun _ => nan3) 1) 0%nat (Example.hit_and Example.far_hit))
       Example.half
     <> Example.isaac_height_map
          (alter (drop_ray 1) 0%nat (Example.hit_and Example.far_hit))
          Example.half.
Proof.
  assert (H1 : output_cell
    (Example.isaac_height_map
       (alter (set_ray (fun _ => nan3) 1) 0%nat (Example.hit_and Example.far_hit))
       Example.half) 0 364 = Some Float.zero)
    by (apply (bool_decide_unpack _); vm_compute; reflexivity).
  assert (H2 : output_cell
       (Example.isaac_height_map
          (alter (drop_ray 1) 0%nat (Example.hit_and Example.far_hit))
          Example.half) 0 364 = Some (Example.f 7 1))
    by (apply (bool_decide_unpack _); vm_compute; reflexivity).
  split; [exact H1|]. split; [exact H2|].
  intros E. rewrite E, H2 in H1. injection H1 as H1. discriminate H1.
Qed.

Lemma nan_ray_is_zero_displacement_witness :
  Example.two_envs !! 0%nat = Some Example.first_env
  /\ Example.isaac_height_map
       (alter (set_ray (fun _ => nan3) 2) 0%nat Example.two_envs) Example.half
     = Example.isaac_height_map
         (alter (set_ray pos_w 2) 0%nat Example.two_envs) Example.half.
Proof.
  split; [reflexivity|].
  exact (proj1 (nan_ray_is_zero_displacement
                  IsaacMath.quat_mul IsaacMath.quat_rotate_inverse
                  Example.two_envs Example.half 0 2 Example.first_env eq_refl)).
Defined.

(** ** The functions on small inputs *)

Example grid_shape : (Bx, By, length block_grid) = (17%nat, 27%nat, 459%nat).
Proof. vm_compute. reflexivity. Qed.

Example bucketize_inside_bin :
  bucketize (Example.f 0 0) x_bins = 14
  /\ bucketize (Example.f (-79) 2) x_bins = 1
  /\ bucketize (Example.f 2 1) x_bins = 17
  /\ bucketize Float.NaN x_bins = 17.
Proof. vm_compute. auto. Qed.

(** The bounds of the mask as float32 values: x_min is
    -0.800000011920929 and x_max 0.20000000298023224, the float32 of
    0.2 (the 1e-9 of the source is below float32 resolution); y_max is
    0.800000011920929.  Edge 5 along x is -0.5 exactly, edge 13 is
    -0.019999999552965164. *)
Example mask_bounds :
  scalar32 range_x.1 = Float.of_Q (-13421773 # 16777216)
  /\ scalar32 range_x.2 = Float.of_Q (13421773 # 67108864)
  /\ scalar32 range_y.2 = Float.of_Q (13421773 # 16777216)
  /\ scalar32 range_x.2 = scalar32 (dec 2 1)
  /\ bin_edge 5 = Example.f (-5) 1
  /\ bin_edge 13 = Float.of_Q (-5368709 # 268435456).
Proof.
  repeat split; apply (bool_decide_unpack _); vm_compute; reflexivity.
Qed.

(** A point whose x is the float32 of 0.2, or whose y is the float32
    of 0.8, passes the mask and falls into the last bin; the next
    float32 above x_max does not pass, and neither does the float32 of
    -0.8, which is x_min itself. *)
Example mask_at_bounds :
  valid_indices (scalar32 (dec 2 1), Example.f 0 0, Example.f 1 0) = true
  /\ x_indices (scalar32 (dec 2 1), Example.f 0 0, Example.f 1 0) = 16
  /\ valid_indices (Example.f 0 0, scalar32 (dec 8 1), Example.f 1 0) = true
  /\ y_indices (Example.f 0 0, scalar32 (dec 8 1), Example.f 1 0) = 26
  /\ valid_indices (Float.of_Q (13421774 # 67108864), Example.f 0 0,
                    Example.f 1 0) = false
  /\ valid_indices (scalar32 (dec (-8) 1), Example.f 0 0, Example.f 1 0)
     = false.
Proof. vm_compute. repeat split. Qed.

(** Two points of heights 1.2 and 0.9 in one cell: the smaller one is
    stored.  The cell of the second environment is untouched by them. *)
Example minimum_wins :
  (m ← raw_map IsaacMath.quat_mul IsaacMath.quat_rotate_inverse
               Example.two_envs;
   mret (m !! flat_index 0 13 13, m !! flat_index 1 13 13,
         m !! flat_index 1 0 0))
  = Some (Some (Example.f 9 1), Some (Example.f 3 0), Some Float.PInf).
Proof. apply (bool_decide_unpack _). vm_compute. reflexivity. Qed.

(** All rays missing: an all-zero tensor of the right shape. *)
Example all_rays_missing :
  Example.isaac_height_map
    [Example.env_of [Example.inf3; Example.inf3; nan3]] Example.half
  = Some [replicate 459 Float.zero].
Proof. apply (bool_decide_unpack _). vm_compute. reflexivity. Qed.

(** A NaN offset is not cleaned by step 5. *)
Example nan_offset_propagates :
  finalize Float.NaN (Example.f 1 0) = Float.NaN
  /\ finalize Float.PInf Float.PInf = Float.NaN.
Proof. split; reflexivity. Qed.

(** A sensor 1.2 above its hit with offset 0.5 reads
    (1.2 - 0.5) / 5 - 0.5 = -0.36; a missed ray reads 0.5. *)
Example process_lidar_values :
  process_lidar [Example.env_of [Example.straight_down; Example.inf3]]
                Example.half
  = [[Example.f (-36) 2; Example.f 5 1]].
Proof. apply (bool_decide_unpack _). vm_compute. reflexivity. Qed.

(** ** Bin edges *)

Lemma x_bins_lookup (k : nat) :
  (k < 17)%nat -> x_bins !! k = Some (bin_edge k).
Proof.
  intros Hk. unfold x_bins, arange.
  replace (arange_len range_x.1 range_x.2 voxel_size_xy) with 17%nat
    by (vm_compute; reflexivity).
  rewrite list_lookup_fmap, lookup_seq_lt by exact Hk. reflexivity.
Qed.

Lemma ltb_trans (a b c : float) :
  (a <? b)%F = true -> (b <? c)%F = true -> (a <? c)%F = true.
Proof. intros H1 H2. exact (ltb_leb_trans a b c H1 (ltb_leb b c H2)). Qed.

Lemma increasingb_spec (edges : list float) :
  increasingb edges = true -> increasing edges.
Proof.
  intros H. apply Sorted_StronglySorted.
  { intros a b c. apply ltb_trans. }
  induction edges as [|a [|b tl] IH]; [constructor | repeat constructor |].
  cbn [increasingb] in H. apply andb_true_iff in H. destruct H as [Hab Htl].
  constructor; [exact (IH Htl) | constructor; exact Hab].
Qed.

(** The edge tensors of the code are increasing and start at the lower
    bound of the mask. *)
Lemma x_bins_increasing :
  increasing x_bins /\ x_bins !! 0%nat = Some (scalar32 range_x.1).
Proof.
  split; [apply increasingb_spec; vm_compute; reflexivity|].
  destruct x_bins_head as (tl & -> & _). reflexivity.
Qed.

Lemma y_bins_increasing :
  increasing y_bins /\ y_bins !! 0%nat = Some (scalar32 range_y.1).
Proof.
  split; [apply increasingb_spec; vm_compute; reflexivity|].
  destruct y_bins_head as (tl & -> & _). reflexivity.
Qed.

Lemma increasing_notnan (edges : list float) (k : nat) (b : float) :
  increasing edges -> edges !! k = Some b ->
  (exists a, edges !! 0%nat = Some a /\ Float.isnan a = false) ->
  Float.isnan b = false.
Proof.
  intros Hinc Hk (a & Ha & Hna). destruct edges as [|c tl]; [discriminate|].
  injection Ha as ->. destruct k as [|k]; [injection Hk as <-; exact Hna|].
  apply StronglySorted_inv in Hinc. destruct Hinc as [_ Hall].
  rewrite Forall_forall in Hall. cbn in Hk.
  eapply ltb_notnan_r, Hall, list_elem_of_lookup_2, Hk.
Qed.

(** A number that sits on edge [k] of an increasing edge tensor is
    sent to [k]. *)
Lemma bucketize_on_edge (v : float) (edges : list float) :
  Float.isnan v = false -> increasing edges ->
  forall k : nat, edges !! k = Some v -> bucketize v edges = Z.of_nat k.
Proof.
  intros Hv. induction edges as [|c tl IH]; intros Hinc k Hk; [discriminate|].
  apply StronglySorted_inv in Hinc. destruct Hinc as [Htl Hall].
  cbn [bucketize]. destruct k as [|k].
  - injection Hk as ->. unfold Float.geb. rewrite leb_refl by exact Hv.
    reflexivity.
  - cbn in Hk. rewrite Forall_forall in Hall.
    assert (Hlt : (c <? v)%F = true).
    { eapply Hall, list_elem_of_lookup_2, Hk. }
    unfold Float.geb.
    rewrite (leb_negb_ltb v c Hv (ltb_notnan_l _ _ Hlt)), Hlt. cbn [negb].
    rewrite (IH Htl k Hk). lia.
Qed.

(** Bucketing a number above the first edge of an increasing edge
    tensor: the bin found is right-closed. *)
Lemma bucketize_right_closed (v : float) (q lo0 : Qc) (edges : list float) :
  v = Float.Fin q -> (lo0 < q)%Qc ->
  increasing edges -> edges !! 0%nat = Some (Float.Fin lo0) ->
  in_right_closed_bin edges v (bucketize v edges - 1)
  /\ (forall k lo, Z.of_nat k <= bucketize v edges - 1 ->
      edges !! k = Some lo -> (lo <? v)%F = true)
  /\ (forall k : nat, edges !! k = Some v ->
      bucketize v edges - 1 = Z.of_nat k - 1).
Proof.
  intros -> Hq Hinc H0.
  assert (Hge1 : 1 <= bucketize (Float.Fin q) edges).
  { destruct edges as [|c tl]; [discriminate|]. injection H0 as ->.
    exact (bucketize_first _ _ _ tl eq_refl Hq). }
  pose proof (bucketize_range (Float.Fin q) edges) as Hrange.
  assert (Hbelow : forall k lo, Z.of_nat k <= bucketize (Float.Fin q) edges - 1 ->
                     edges !! k = Some lo -> (lo <? Float.Fin q)%F = true).
  { intros k lo Hk Hlo.
    assert (Hge : (lo >=? Float.Fin q)%F = false).
    { eapply bucketize_below; [|exact Hlo]. lia. }
    assert (Hn : Float.isnan lo = false).
    { eapply increasing_notnan; [exact Hinc | exact Hlo |].
      exists (Float.Fin lo0). split; [exact H0 | reflexivity]. }
    unfold Float.geb in Hge.
    rewrite (leb_negb_ltb (Float.Fin q) lo eq_refl Hn) in Hge.
    apply negb_false_iff in Hge. exact Hge. }
  split; [|split; [exact Hbelow|]].
  - split; [lia|].
    destruct (lookup_lt_is_Some_2 edges
                (Z.to_nat (bucketize (Float.Fin q) edges - 1))) as [lo Hlo];
      [lia|].
    exists lo. split; [exact Hlo|]. split.
    + eapply Hbelow; [|exact Hlo]. lia.
    + intros hi Hhi. change ((hi >=? Float.Fin q)%F = true).
      apply (bucketize_at (Float.Fin q) edges).
      replace (Z.to_nat (bucketize (Float.Fin q) edges))
        with (S (Z.to_nat (bucketize (Float.Fin q) edges - 1))) by lia.
      exact Hhi.
  - intros k Hk.
    rewrite (bucketize_on_edge (Float.Fin q) edges eq_refl Hinc k Hk).
    reflexivity.
Qed.

(** C5, as stated, fails: the point on the first interior edge is put
    into bin 0, whose right-open interval does not contain it. *)
Lemma edge_point_not_in_right_open_bin :
  valid_indices (Example.on_edge 1) = true
  /\ x_indices (Example.on_edge 1) = 0
  /\ ~ in_right_open_bin x_bins (vx (Example.on_edge 1))
                         (x_indices (Example.on_edge 1)).
Proof.
  assert (Hx : x_indices (Example.on_edge 1) = 0) by (vm_compute; reflexivity).
  split; [vm_compute; reflexivity|]. split; [exact Hx|].
  rewrite Hx. intros (_ & lo & _ & _ & Hhi).
  specialize (Hhi (bin_edge 1) (x_bins_lookup 1 ltac:(lia))).
  vm_compute in Hhi. discriminate.
Qed.

(** C5, as the code has it.  A surviving point is put into the bin
    whose left edge lies strictly below it and whose right edge it does
    not exceed: bins are right-closed.  Its index is the index of the
    first edge it does not exceed, minus one; on interior edge [k] it
    is [k - 1].  This holds for the edge tensor [x_bins], whose edge [k]
    is the float32 value of [x_min + k * cell_size], and for every
    increasing edge tensor that starts at the float32 value of
    [x_min], whatever the last digits of its other edges are. *)
Theorem bin_is_right_closed (p : vec3) :
  valid_indices p = true ->
  in_right_closed_bin x_bins (vx p) (x_indices p)
  /\ (forall k lo, Z.of_nat k <= x_indices p -> x_bins !! k = Some lo ->
      (lo <? vx p)%F = true)
  /\ (forall k, (1 <= k <= 16)%nat -> vx p = bin_edge k ->
      x_indices p = Z.of_nat k - 1)
  /\ (forall edges : list float,
      increasing edges -> edges !! 0%nat = Some (scalar32 range_x.1) ->
      in_right_closed_bin edges (vx p) (bucketize (vx p) edges - 1)
      /\ forall k : nat, edges !! k = Some (vx p) ->
         bucketize (vx p) edges - 1 = Z.of_nat k - 1).
Proof.
  intros Hv. apply valid_indices_spec in Hv.
  destruct Hv as (x & y & z & -> & Hx & _). cbn [vx fst].
  destruct x_bins_increasing as [Hinc H0].
  destruct (bucketize_right_closed _ x _ x_bins eq_refl Hx Hinc H0)
    as (Hbin & Hbelow & Hedge).
  split; [exact Hbin|]. split; [exact Hbelow|]. split.
  - intros k Hk Hon. apply Hedge. rewrite Hon. apply x_bins_lookup. lia.
  - intros edges Hinc' H0'.
    destruct (bucketize_right_closed _ x _ edges eq_refl Hx Hinc' H0')
      as (Hbin' & _ & Hedge').
    split; [exact Hbin' | exact Hedge'].
Qed.

Lemma bin_is_right_closed_witness :
  valid_indices (Example.on_edge 4) = true
  /\ in_right_closed_bin x_bins (vx (Example.on_edge 4))
                         (x_indices (Example.on_edge 4))
  /\ x_indices (Example.on_edge 4) = 3.
Proof.
  assert (Hv : valid_indices (Example.on_edge 4) = true)
    by (vm_compute; reflexivity).
  split; [exact Hv|].
  destruct (bin_is_right_closed (Example.on_edge 4) Hv)
    as (Hbin & _ & Hedge & _).
  split; [exact Hbin|].
  apply (Hedge 4%nat); [lia | reflexivity].
Defined.

(** ** The single-hit scenario *)

(** C8, as stated, fails.  With the three other rays reporting no hit,
    their zero displacement is binned into cell (13, 13) with height 0
    and the whole output is 0.0.  With the hit 1.2 straight below the
    sensor in world coordinates, the fixed mount rotation carries it
    outside the grid and the whole output is 0.0 as well. *)
Lemma single_hit_scenario_all_zero :
  Example.isaac_frame (Example.env_of [Example.under_sensor (dec 12 1)])
  = [(Float.Fin (dec 0 0), Float.Fin (dec 0 0), Float.Fin (dec 12 1))]
  /\ Example.isaac_height_map Example.one_hit_three_missed Example.half
     = Some [replicate 459 Float.zero]
  /\ Example.isaac_height_map Example.world_down Example.half
     = Some [replicate 459 Float.zero]
  /\ output_cell (Example.isaac_height_map Example.one_hit_three_missed
                    Example.half) 0 (13 * 27 + 13)
     <> Some (Float.Fin (dec 7 1)).
Proof.
  assert (H1 : Example.isaac_height_map Example.one_hit_three_missed Example.half
               = Some [replicate 459 Float.zero])
    by (apply (bool_decide_unpack _); vm_compute; reflexivity).
  split; [apply (bool_decide_unpack _); vm_compute; reflexivity|].
  split; [exact H1|].
  split; [apply (bool_decide_unpack _); vm_compute; reflexivity|].
  rewrite H1. apply (bool_decide_eq_false_1 _). vm_compute. reflexivity.
Qed.

Lemma single_hit_scenario_witness :
  filter valid_indices
    (Example.isaac_frame
       (Example.env_of [Example.under_sensor (dec 12 1); Example.far_hit;
                        Example.far_hit; Example.far_hit]))
  = [(Float.Fin (dec 0 0), Float.Fin (dec 0 0), Float.Fin (dec 12 1))]
  /\ Example.isaac_height_map Example.one_hit_three_far Example.half
     = Some [block_grid].
Proof.
  assert (Hf : filter valid_indices
    (Example.isaac_frame
       (Example.env_of [Example.under_sensor (dec 12 1); Example.far_hit;
                        Example.far_hit; Example.far_hit]))
    = [(Float.Fin (dec 0 0), Float.Fin (dec 0 0), Float.Fin (dec 12 1))])
    by (apply (bool_decide_unpack _); vm_compute; reflexivity).
  split; [exact Hf|].
  exact (proj1 (single_hit_scenario
                  IsaacMath.quat_mul IsaacMath.quat_rotate_inverse _ Hf)).
Defined.

(** ** The call on its storage *)

Lemma alloc_app (h l : list tensor) (d : list (list float)) (t : tensor) :
  alloc t (mkWorld (h ++ l) d)
  = Some ((length h + length l)%nat, mkWorld (h ++ (l ++ [t])) d).
Proof. unfold alloc. cbn. rewrite length_app, app_assoc. reflexivity. Qed.

Lemma load_new (h l : list tensor) (d : list (list float)) (k : nat) (t : tensor) :
  l !! k = Some t ->
  load (length h + k) (mkWorld (h ++ l) d) = Some (t, mkWorld (h ++ l) d).
Proof.
  intros Hk. unfold load. cbn. rewrite lookup_app_r by lia.
  replace (length h + k - length h)%nat with k by lia. rewrite Hk. reflexivity.
Qed.

Lemma load_old (h l : list tensor) (d : list (list float)) (s : nat) (t : tensor) :
  h !! s = Some t ->
  load s (mkWorld (h ++ l) d) = Some (t, mkWorld (h ++ l) d).
Proof.
  intros Hs. unfold load. cbn. rewrite (lookup_app_l_Some _ _ _ _ Hs).
  reflexivity.
Qed.

Lemma store_new (h l : list tensor) (d : list (list float)) (k : nat) (t : tensor) :
  store (length h + k) t (mkWorld (h ++ l) d)
  = Some (tt, mkWorld (h ++ <[k := t]> l) d).
Proof. unfold store. cbn. rewrite insert_app_r. reflexivity. Qed.

Ltac run_step :=
  first [ rewrite alloc_app
        | erewrite load_new by reflexivity
        | rewrite store_new ];
  cbn [length app list_insert insert]; cbv beta iota.

Section CallProperties.

Variable quat_mul : quat -> quat -> quat.
Variable quat_rotate_inverse : quat -> vec3 -> vec3.

Local Abbreviation frame := (hit_vec_lidar_frame quat_mul quat_rotate_inverse).
Local Abbreviation run := (height_map_lidar quat_mul quat_rotate_inverse).
Local Abbreviation call := (height_map_lidar_call quat_mul quat_rotate_inverse).

(** The frames the call computes in its storage are those of the
    functional reading. *)
Lemma call_frames (scene : Scene) :
  zip_with (fun e row => quat_rotate_inverse (sensor_quat_w quat_mul e) <$> row)
    scene
    ((fun row : list vec3 =>
        vec3_map (masked_fill Float.isnan Float.zero) <$> row) <$>
     ((fun row : list vec3 =>
         vec3_map (masked_fill Float.isinf Float.zero) <$> row) <$>
      ((fun e => (fun h => vec3_sub h (pos_w e)) <$> ray_hits_w e) <$> scene)))
  = frame <$> scene.
Proof.
  induction scene as [|e scene IH]; [reflexivity|].
  cbn [fmap list_fmap zip_with]. fold (@fmap list _). f_equal; [|exact IH].
  unfold hit_vec_lidar_frame, hit_vec.
  rewrite <- !list_fmap_compose. reflexivity.
Qed.

Lemma call_spec (h : list tensor) (sensor : nat) (scene : Scene)
      (offset : float) :
  h !! sensor = Some (Input scene) ->
  exists l out,
    (forall d, call sensor offset (mkWorld h d)
               = Some ((length h + 6)%nat, mkWorld (h ++ l) d))
    /\ l !! 6%nat = Some (Rows out)
    /\ run scene offset = Some out.
Proof.
  intros Hs.
  destruct (height_map_lidar_total quat_mul quat_rotate_inverse scene offset)
    as (m & Hraw & _ & Hrun).
  unfold raw_map, scatter_updates in Hraw.
  eexists _, _. split; [|split].
  - intros d.
    replace (mkWorld h d) with (mkWorld (h ++ []) d)
      by (rewrite app_nil_r; reflexivity).
    unfold height_map_lidar_call.
    cbv [mbind M_bind load_input load_points load_flat masked_fill_
         scatter_reduce_ mret M_ret fail].
    rewrite (load_old _ _ _ _ _ Hs). cbv beta iota.
    do 6 run_step. rewrite call_frames. do 3 run_step.
    rewrite length_fmap. run_step. rewrite Hraw. repeat run_step.
    reflexivity.
  - reflexivity.
  - rewrite Hrun. do 2 f_equal. unfold finalize.
    rewrite <- !list_fmap_compose. reflexivity.
Qed.

(** C9.  The call allocates its result and touches nothing that was
    there before: every tensor of the heap, the input buffers among
    them, is left as it was, and [prev_height_maps] is neither written
    nor read (the outcome is the same for every content of the deque).
    The returned tensor is the one of the functional reading, and a
    second call on the resulting state returns it again. *)
Theorem height_map_lidar_has_no_side_effects
  (w : world) (sensor : nat) (scene : Scene) (offset : float) :
  heap w !! sensor = Some (Input scene) ->
  exists loc w' out,
    call sensor offset w = Some (loc, w')
    /\ heap w' !! loc = Some (Rows out)
    /\ run scene offset = Some out
    /\ (length (heap w) <= loc)%nat
    /\ heap w `prefix_of` heap w'
    /\ heap w' !! sensor = Some (Input scene)
    /\ prev_height_maps w' = prev_height_maps w
    /\ (forall d, call sensor offset (mkWorld (heap w) d)
                  = Some (loc, mkWorld (heap w') d))
    /\ exists loc' w'',
         call sensor offset w' = Some (loc', w'')
         /\ heap w'' !! loc' = Some (Rows out)
         /\ heap w'' !! sensor = Some (Input scene)
         /\ prev_height_maps w'' = prev_height_maps w.
Proof.
  intros Hs. destruct w as [h d]. cbn [heap prev_height_maps] in *.
  destruct (call_spec h sensor scene offset Hs) as (l & out & Hcall & Hl & Hrun).
  assert (Hs' : (h ++ l) !! sensor = Some (Input scene))
    by (apply lookup_app_l_Some, Hs).
  destruct (call_spec (h ++ l) sensor scene offset Hs')
    as (l' & out' & Hcall' & Hl' & Hrun').
  rewrite Hrun in Hrun'. injection Hrun' as <-.
  exists (length h + 6)%nat, (mkWorld (h ++ l) d), out.
  cbn [heap prev_height_maps].
  split; [apply Hcall|]. split.
  { rewrite lookup_app_r by lia.
    replace (length h + 6 - length h)%nat with 6%nat by lia. exact Hl. }
  split; [exact Hrun|]. split; [lia|].
  split; [apply prefix_app_r; reflexivity|].
  split; [exact Hs'|]. split; [reflexivity|]. split; [exact Hcall|].
  exists (length (h ++ l) + 6)%nat, (mkWorld ((h ++ l) ++ l') d).
  cbn [heap prev_height_maps].
  split; [apply Hcall'|]. split.
  { rewrite lookup_app_r by lia.
    replace (length (h ++ l) + 6 - length (h ++ l))%nat with 6%nat by lia.
    exact Hl'. }
  split; [apply lookup_app_l_Some, Hs' | reflexivity].
Qed.

End CallProperties.

Lemma height_map_lidar_has_no_side_effects_witness :
  heap (mkWorld [Input Example.two_envs] [[Float.zero]]) !! 0%nat
  = Some (Input Example.two_envs)
  /\ exists loc w' out,
       height_map_lidar_call IsaacMath.quat_mul IsaacMath.quat_rotate_inverse
         0 Example.half (mkWorld [Input Example.two_envs] [[Float.zero]])
       = Some (loc, w')
       /\ heap w' !! loc = Some (Rows out)
       /\ Example.isaac_height_map Example.two_envs Example.half = Some out
       /\ heap w' !! 0%nat = Some (Input Example.two_envs)
       /\ prev_height_maps w' = [[Float.zero]].
Proof.
  split; [reflexivity|].
  destruct (height_map_lidar_has_no_side_effects
              IsaacMath.quat_mul IsaacMath.quat_rotate_inverse
              (mkWorld [Input Example.two_envs] [[Float.zero]])
              0 Example.two_envs Example.half eq_refl)
    as (loc & w' & out & Hcall & Hout & Hrun & _ & _ & Hin & Hd & _).
  exists loc, w', out.
  split; [exact Hcall|]. split; [exact Hout|]. split; [exact Hrun|].
  split; [exact Hin | exact Hd].
Defined.

(** * Further properties of the height map *)

Lemma leb_antisym (a b : float) :
  (a <=? b)%F = true -> (b <=? a)%F = true -> a = b.
Proof.
  destruct a as [| | |p], b as [| | |q]; cbn; try congruence.
  rewrite !negb_true_iff, !Qcltb_ge. intros H1 H2.
  f_equal. apply Qcle_antisym; assumption.
Qed.

(** The least element does not depend on the order of the list. *)
Lemma is_min_of_perm (zs zs' : list float) (v v' : float) :
  zs ≡ₚ zs' -> is_min_of zs v -> is_min_of zs' v' -> v = v'.
Proof.
  intros Hp Hv Hv'. destruct zs as [|z zs].
  - apply Permutation_nil_l in Hp. subst zs'. cbn in *. congruence.
  - destruct zs' as [|z' zs'].
    { symmetry in Hp. apply Permutation_nil_l in Hp. discriminate. }
    destruct Hv as [Hin Hall], Hv' as [Hin' Hall'].
    rewrite Forall_forall in Hall, Hall'.
    apply leb_antisym.
    + apply Hall. rewrite Hp. exact Hin'.
    + apply Hall'. rewrite <- Hp. exact Hin.
Qed.

Lemma cell_points_perm (pts pts' : list vec3) (i j : nat) :
  pts ≡ₚ pts' -> cell_points pts i j ≡ₚ cell_points pts' i j.
Proof. intros Hp. unfold cell_points. rewrite Hp. reflexivity. Qed.

Lemma cell_grid_perm (pts pts' : list vec3) :
  pts ≡ₚ pts' -> cell_grid pts = cell_grid pts'.
Proof.
  intros Hp. unfold cell_grid.
  apply list_bind_ext; [|reflexivity]. intros i.
  apply list_bind_ext; [|reflexivity]. intros j. f_equal.
  eapply is_min_of_perm.
  - apply cell_points_perm, Hp.
  - apply fold_amin_is_min, cell_points_finite.
  - apply fold_amin_is_min, cell_points_finite.
Qed.

Lemma cell_grid_lookup (pts : list vec3) (i j : nat) :
  (i < Bx)%nat -> (j < By)%nat ->
  cell_grid pts !! (i * By + j)%nat
  = Some (fold_left amin (cell_points pts i j) Float.PInf).
Proof.
  intros Hi Hj. unfold cell_grid.
  rewrite (bind_rows_lookup
             (fun i => j ← seq 0 By;
                       [fold_left amin (cell_points pts i j) Float.PInf]) By).
  - rewrite bind_singleton_fmap, list_lookup_fmap.
    rewrite lookup_seq_lt by exact Hj. reflexivity.
  - intros k. rewrite bind_singleton_fmap, length_fmap. apply length_seq.
  - exact Hi.
  - exact Hj.
Qed.

Lemma cell_grid_length (pts : list vec3) :
  length (cell_grid pts) = (Bx * By)%nat.
Proof.
  unfold cell_grid. apply bind_rows_length.
  intros k. rewrite bind_singleton_fmap, length_fmap. apply length_seq.
Qed.

Section HeightMapPerEnvironment.

Variable quat_mul : quat -> quat -> quat.
Variable quat_rotate_inverse : quat -> vec3 -> vec3.

Local Abbreviation frame := (hit_vec_lidar_frame quat_mul quat_rotate_inverse).
Local Abbreviation raw := (raw_map quat_mul quat_rotate_inverse).
Local Abbreviation step5 := (map_2_5D quat_mul quat_rotate_inverse).
Local Abbreviation run := (height_map_lidar quat_mul quat_rotate_inverse).

(** The slice of the raw map that belongs to one environment is the
    grid of that environment's points. *)
Lemma env_grid_raw (scene : Scene) (m : list float) (e : nat) (env : EnvData) :
  raw scene = Some m -> scene !! e = Some env ->
  env_grid m e = cell_grid (frame env).
Proof.
  intros Hraw He.
  destruct (raw_map_spec quat_mul quat_rotate_inverse scene)
    as (m0 & Hraw0 & Hlen & Hcell).
  rewrite Hraw in Hraw0. injection Hraw0 as <-.
  pose proof (lookup_lt_Some _ _ _ He) as Hlt.
  apply list_eq. intros k.
  destruct (decide (k < Bx * By)%nat) as [Hk|Hk].
  - assert (HBy : (0 < By)%nat) by (rewrite By_eq; lia).
    assert (Ek : k = (k / By * By + k mod By)%nat).
    { rewrite (Nat.div_mod_eq k By) at 1. lia. }
    assert (Hi : (k / By < Bx)%nat).
    { apply Nat.Div0.div_lt_upper_bound. lia. }
    assert (Hj : (k mod By < By)%nat) by (apply Nat.mod_upper_bound; lia).
    rewrite env_grid_lookup by exact Hk. rewrite Ek.
    rewrite <- flat_index_split, (Hcell e env _ _ He Hi Hj).
    rewrite cell_grid_lookup by assumption. reflexivity.
  - rewrite !lookup_ge_None_2; [reflexivity | |].
    + rewrite cell_grid_length. lia.
    + rewrite (env_grid_length m (length scene) e Hlen Hlt). lia.
Qed.

(** The batched call is the single-environment computation applied to
    every environment. *)
Lemma run_per_env (scene : Scene) (offset : float) :
  run scene offset = Some ((fun env => env_row offset (frame env)) <$> scene).
Proof.
  destruct (height_map_lidar_total quat_mul quat_rotate_inverse scene offset)
    as (m & Hraw & _ & Hrun).
  rewrite Hrun. f_equal. apply list_eq. intros e.
  unfold max_across_frames. rewrite !list_lookup_fmap.
  destruct (scene !! e) as [env|] eqn:He.
  - rewrite lookup_seq_lt by (eapply lookup_lt_Some, He). cbn.
    unfold env_row. do 2 f_equal.
    rewrite <- (env_grid_raw scene m e env Hraw He).
    unfold env_grid. rewrite fmap_take, fmap_drop. reflexivity.
  - rewrite lookup_seq_ge by (apply lookup_ge_None_1, He). reflexivity.
Qed.

(** X1.  The linear indices handed to the scatter always lie inside
    the flat map, so for every batch of at least one environment and
    every offset the call returns, with one row of [Bx * By] values per
    environment. *)
Theorem scatter_never_out_of_bounds (scene : Scene) (offset : float) :
  scene <> [] ->
  Forall (fun u => 0 <= u.1 < Z.of_nat (length scene * Bx * By))
         (scatter_updates quat_mul quat_rotate_inverse scene)
  /\ exists out, run scene offset = Some out
       /\ length out = length scene
       /\ Forall (fun row => length row = (Bx * By)%nat) out.
Proof.
  intros _. split.
  - unfold scatter_updates. apply updates_from_in_range.
    rewrite length_fmap. lia.
  - eexists. split; [apply run_per_env|]. split; [apply length_fmap|].
    apply Forall_fmap, Forall_forall. intros env _.
    exact (max_pool2d_length _ Bx By).
Qed.

(** X2.  The row returned for an environment depends on that
    environment alone: it is the row the call returns for the batch
    that holds only this environment. *)
Theorem row_is_single_environment_result
  (scene : Scene) (offset : float) (e : nat) (env : EnvData) :
  scene !! e = Some env ->
  exists out row, run scene offset = Some out /\ out !! e = Some row
    /\ run [env] offset = Some [row].
Proof.
  intros He. eexists _, _. split; [apply run_per_env|]. split.
  - rewrite list_lookup_fmap, He. reflexivity.
  - apply run_per_env.
Qed.

(** X3.  The output does not depend on the order of the rays inside
    an environment. *)
Theorem ray_order_is_irrelevant (scene scene' : Scene) (offset : float) :
  Forall2 same_rays scene scene' ->
  run scene offset = run scene' offset.
Proof.
  intros Hsame. rewrite !run_per_env. f_equal.
  induction Hsame as [|a b scene scene' (Hpos & Hquat & Hperm) _ IH];
    [reflexivity|].
  cbn [fmap list_fmap]. fold (@fmap list _). apply (f_equal2 cons); [|exact IH].
  assert (Hframe : frame a ≡ₚ frame b).
  { unfold hit_vec_lidar_frame, hit_vec, sensor_quat_w.
    rewrite Hpos, Hquat. apply fmap_Permutation, fmap_Permutation, Hperm. }
  unfold env_row. rewrite (cell_grid_perm _ _ Hframe). reflexivity.
Qed.

End HeightMapPerEnvironment.

Lemma scatter_never_out_of_bounds_witness :
  Example.two_envs <> []
  /\ Forall (fun u => 0 <= u.1 < Z.of_nat (length Example.two_envs * Bx * By))
       (scatter_updates IsaacMath.quat_mul IsaacMath.quat_rotate_inverse
                        Example.two_envs)
  /\ exists out,
       Example.isaac_height_map Example.two_envs Float.NaN = Some out
       /\ length out = length Example.two_envs
       /\ Forall (fun row => length row = (Bx * By)%nat) out.
Proof.
  assert (Hne : Example.two_envs <> []) by discriminate.
  split; [exact Hne|].
  exact (scatter_never_out_of_bounds
           IsaacMath.quat_mul IsaacMath.quat_rotate_inverse
           Example.two_envs Float.NaN Hne).
Defined.

Lemma row_is_single_environment_result_witness :
  Example.two_envs !! 1%nat = Some (Example.env_of [Example.under_sensor (dec 3 0)])
  /\ exists out row,
       Example.isaac_height_map Example.two_envs Example.half = Some out
       /\ out !! 1%nat = Some row
       /\ Example.isaac_height_map
            [Example.env_of [Example.under_sensor (dec 3 0)]] Example.half
          = Some [row].
Proof.
  split; [reflexivity|].
  exact (row_is_single_environment_result
           IsaacMath.quat_mul IsaacMath.quat_rotate_inverse
           Example.two_envs Example.half 1 _ eq_refl).
Defined.

Lemma ray_order_is_irrelevant_witness :
  Forall2 same_rays Example.two_envs Example.two_envs_swapped
  /\ Example.isaac_height_map Example.two_envs Example.half
     = Example.isaac_height_map Example.two_envs_swapped Example.half.
Proof.
  assert (H : Forall2 same_rays Example.two_envs Example.two_envs_swapped).
  { constructor.
    - split; [reflexivity|]. split; [reflexivity|]. apply perm_swap.
    - constructor; [|constructor].
      split; [reflexivity|]. split; reflexivity. }
  split; [exact H|].
  exact (ray_order_is_irrelevant
           IsaacMath.quat_mul IsaacMath.quat_rotate_inverse _ _ Example.half H).
Defined.

(** ** The range of the output *)

Lemma amin_height_value (a b : float) :
  height_value a -> height_value b -> height_value (amin a b).
Proof.
  intros Ha Hb. unfold amin.
  assert (Hn : Float.isnan b = false)
    by (destruct Hb as [-> | (z & -> & _)]; reflexivity).
  rewrite Hn. destruct (b <? a)%F; assumption.
Qed.

Lemma updates_from_heights (frames : list (list vec3)) :
  forall e0, Forall (fun u => height_value u.2) (updates_from e0 frames).
Proof.
  induction frames as [|pts frames IH]; intros e0; [constructor|].
  cbn [updates_from]. apply Forall_app. split; [|apply IH].
  apply env_updates_Forall. intros p Hv. cbn [snd].
  apply valid_indices_spec in Hv.
  destruct Hv as (x & y & z & -> & _ & _ & _ & _ & Hlo & Hhi).
  right. exists z. auto.
Qed.

Lemma finalize_in_output_range (offset v : float) :
  Float.isfinite offset = true -> height_value v ->
  in_output_range offset (finalize offset v).
Proof.
  intros Ho [-> | (z & -> & Hlo & Hhi)].
  - rewrite finalize_empty by (apply usable_of_finite, Ho). left. reflexivity.
  - destruct offset as [| | |o]; try discriminate.
    unfold finalize, where_. cbn [Float.sub Float.opp Float.add].
    destruct (Float.Fin (z + - o) <? min_height)%F eqn:E.
    + left. reflexivity.
    + cbn [Float.isinf]. right. split.
      * rewrite leb_negb_ltb by reflexivity. rewrite E. reflexivity.
      * apply leb_Fin. apply Qcplus_le_mono_r. exact Hhi.
Qed.

Section HeightMapRange.

Variable quat_mul : quat -> quat -> quat.
Variable quat_rotate_inverse : quat -> vec3 -> vec3.

Local Abbreviation frame := (hit_vec_lidar_frame quat_mul quat_rotate_inverse).
Local Abbreviation raw := (raw_map quat_mul quat_rotate_inverse).
Local Abbreviation step5 := (map_2_5D quat_mul quat_rotate_inverse).
Local Abbreviation run := (height_map_lidar quat_mul quat_rotate_inverse).

Lemma raw_map_heights (scene : Scene) (m : list float) :
  raw scene = Some m -> Forall height_value m.
Proof.
  unfold raw_map. apply scatter_reduce_amin_Forall.
  - exact amin_height_value.
  - apply updates_from_heights.
  - apply Forall_replicate. left. reflexivity.
Qed.

(** X4.  Under a finite offset every returned value is 0.0 or lies
    between 0.05 and [z_max - offset]; when [z_max - offset] is below
    0.05 the returned tensor is all 0.0, whatever the scene. *)
Theorem output_bounded_by_range (scene : Scene) (offset : float) :
  Float.isfinite offset = true ->
  exists out, run scene offset = Some out
    /\ Forall (Forall (in_output_range offset)) out
    /\ (((Float.Fin range_z.2 - offset) <? min_height)%F = true ->
        Forall (Forall (fun v => v = Float.zero)) out).
Proof.
  intros Ho.
  destruct (height_map_lidar_total quat_mul quat_rotate_inverse scene offset)
    as (m & Hraw & H5 & _).
  destruct (pooled_spec quat_mul quat_rotate_inverse scene offset
              (usable_of_finite offset Ho))
    as (m5 & out & H5' & Hrun & _ & _ & Hlen & Hrows).
  rewrite H5 in H5'. injection H5' as <-.
  assert (Hm5 : Forall (in_output_range offset) (finalize offset <$> m)).
  { apply Forall_fmap. eapply Forall_impl; [apply (raw_map_heights scene m Hraw)|].
    intros v Hv. apply finalize_in_output_range; assumption. }
  assert (Hout : Forall (Forall (in_output_range offset)) out).
  { apply Forall_lookup. intros e row Hrow.
    destruct (Hrows e) as (row' & Hrow' & _ & Hin & _).
    { rewrite <- Hlen. eapply lookup_lt_Some, Hrow. }
    rewrite Hrow in Hrow'. injection Hrow' as <-.
    eapply Forall_impl; [exact Hin|]. intros v Hv.
    rewrite Forall_forall in Hm5. apply (Hm5 v Hv). }
  exists out. split; [exact Hrun|]. split; [exact Hout|].
  intros Hsmall. eapply Forall_impl; [exact Hout|]. intros row Hrow.
  eapply Forall_impl; [exact Hrow|]. intros v [Hv | [Hlo Hhi]]; [exact Hv|].
  exfalso. pose proof (leb_trans _ _ _ Hlo Hhi) as Hle.
  rewrite leb_negb_ltb in Hle.
  - rewrite Hsmall in Hle. discriminate.
  - reflexivity.
  - eapply ltb_notnan_l, Hsmall.
Qed.

End HeightMapRange.

Lemma output_bounded_by_range_witness :
  Float.isfinite Example.half = true
  /\ exists out,
       Example.isaac_height_map Example.two_envs Example.half = Some out
       /\ Forall (Forall (in_output_range Example.half)) out.
Proof.
  split; [reflexivity|].
  destruct (output_bounded_by_range
              IsaacMath.quat_mul IsaacMath.quat_rotate_inverse
              Example.two_envs Example.half eq_refl)
    as (out & Hrun & Hout & _).
  exists out. split; [exact Hrun | exact Hout].
Defined.

(** ** The pooled value as a neighbourhood maximum *)

(** On a grid of finite values the pooled value is attained inside the
    window and dominates every value of the window. *)
Lemma max_pool2d_at_window (g : list float) (H W i j : nat) :
  Forall (fun v => Float.isfinite v = true) g ->
  length g = (H * W)%nat -> (i < H)%nat -> (j < W)%nat ->
  (exists ih iw, ih ∈ pool_range H i /\ iw ∈ pool_range W j
     /\ g !! (ih * W + iw)%nat = Some (max_pool2d_at g H W i j))
  /\ (forall ih iw v, ih ∈ pool_range H i -> iw ∈ pool_range W j ->
        g !! (ih * W + iw)%nat = Some v ->
        (v <=? max_pool2d_at g H W i j)%F = true).
Proof.
  intros Hfin Hlen Hi Hj. unfold max_pool2d_at.
  set (vals := (fun k => default Float.NaN (g !! k)) <$> pool_window H W i j).
  assert (Hlook : forall ih iw, ih ∈ pool_range H i -> iw ∈ pool_range W j ->
                    exists v, g !! (ih * W + iw)%nat = Some v).
  { intros ih iw Hih Hiw. apply pool_range_bound in Hih, Hiw.
    apply lookup_lt_is_Some_2. rewrite Hlen. apply grid_index_lt; assumption. }
  assert (Hvals : forall v, v ∈ vals <->
            exists ih iw, ih ∈ pool_range H i /\ iw ∈ pool_range W j
                          /\ g !! (ih * W + iw)%nat = Some v).
  { intros v. unfold vals. rewrite list_elem_of_fmap. split.
    - intros (k & -> & Hk). apply pool_window_elem in Hk.
      destruct Hk as (ih & iw & Hih & Hiw & ->).
      destruct (Hlook ih iw Hih Hiw) as [v Hv].
      exists ih, iw. rewrite Hv. auto.
    - intros (ih & iw & Hih & Hiw & Hv). exists (ih * W + iw)%nat.
      rewrite Hv. split; [reflexivity|]. apply pool_window_elem. eauto. }
  assert (Hnn : Forall (fun v => Float.isnan v = false) vals).
  { apply Forall_forall. intros v Hv. apply finite_notnan.
    apply Hvals in Hv. destruct Hv as (ih & iw & _ & _ & Hv).
    rewrite Forall_forall in Hfin. eapply Hfin, list_elem_of_lookup_2, Hv. }
  destruct (fold_max_step_spec vals Float.NInf Hnn eq_refl) as (Hin & _ & Hall).
  cbv zeta in Hin. rewrite Forall_forall in Hall.
  split.
  - destruct Hin as [E|Hin]; [|apply Hvals, Hin].
    exfalso. destruct (Hlook i j (pool_range_self H i Hi) (pool_range_self W j Hj))
      as [c Hc].
    assert (Hcin : c ∈ vals).
    { apply Hvals. exists i, j. split; [apply pool_range_self, Hi|].
      split; [apply pool_range_self, Hj | exact Hc]. }
    specialize (Hall c Hcin). rewrite E in Hall.
    assert (Hcf : Float.isfinite c = true).
    { rewrite Forall_forall in Hfin. eapply Hfin, list_elem_of_lookup_2, Hc. }
    destruct c; cbn in *; congruence.
  - intros ih iw v Hih Hiw Hv. apply Hall, Hvals. eauto.
Qed.

Section HeightMapPooling.

Variable quat_mul : quat -> quat -> quat.
Variable quat_rotate_inverse : quat -> vec3 -> vec3.

Local Abbreviation step5 := (map_2_5D quat_mul quat_rotate_inverse).
Local Abbreviation run := (height_map_lidar quat_mul quat_rotate_inverse).

(** X5.  Under a finite offset the value returned for a cell is the
    maximum of the step-5 values over the cells of the same
    environment at distance at most one in each direction: it is the
    value of one of them and is at least the value of each.  At the
    border only the cells inside the grid take part. *)
Theorem pooled_value_is_neighbourhood_maximum
  (scene : Scene) (offset : float) (e i j : nat) :
  Float.isfinite offset = true ->
  (e < length scene)%nat -> (i < Bx)%nat -> (j < By)%nat ->
  exists m5 out row post,
    step5 scene offset = Some m5 /\ run scene offset = Some out
    /\ out !! e = Some row /\ row !! (i * By + j)%nat = Some post
    /\ (exists i' j', (i' < Bx /\ i' <= i + 1 /\ i <= i' + 1)%nat
          /\ (j' < By /\ j' <= j + 1 /\ j <= j' + 1)%nat
          /\ m5 !! flat_index e i' j' = Some post)
    /\ (forall i' j', (i' < Bx /\ i' <= i + 1 /\ i <= i' + 1)%nat ->
          (j' < By /\ j' <= j + 1 /\ j <= j' + 1)%nat ->
          exists v, m5 !! flat_index e i' j' = Some v
                    /\ (v <=? post)%F = true).
Proof.
  intros Ho He Hi Hj.
  destruct (pooled_spec quat_mul quat_rotate_inverse scene offset
              (usable_of_finite offset Ho))
    as (m5 & out & H5 & Hrun & Hlen5 & Hset & _ & _).
  destruct (height_map_lidar_total quat_mul quat_rotate_inverse scene offset)
    as (m & _ & H5' & Hrun').
  rewrite H5 in H5'. injection H5' as ->.
  rewrite Hrun in Hrun'. injection Hrun' as ->.
  set (m5 := finalize offset <$> m) in *.
  assert (Hg : length (env_grid m5 e) = (Bx * By)%nat)
    by (eapply env_grid_length; eassumption).
  assert (Hgf : Forall (fun v => Float.isfinite v = true) (env_grid m5 e)).
  { apply Forall_forall. intros v Hv. apply env_grid_elem in Hv.
    rewrite Forall_forall in Hset. apply Hset, Hv. }
  destruct (max_pool2d_at_window _ Bx By i j Hgf Hg Hi Hj) as [Hatt Hdom].
  assert (Hcell : forall i' j', (i' < Bx)%nat -> (j' < By)%nat ->
            env_grid m5 e !! (i' * By + j')%nat = m5 !! flat_index e i' j').
  { intros i' j' Hi' Hj'. rewrite flat_index_split.
    apply env_grid_lookup, grid_index_lt; assumption. }
  exists m5, (max_across_frames (length scene) m5),
    (max_pool2d (env_grid m5 e) Bx By),
    (max_pool2d_at (env_grid m5 e) Bx By i j).
  split; [exact H5|]. split; [exact Hrun|]. split.
  { unfold max_across_frames. rewrite list_lookup_fmap.
    rewrite lookup_seq_lt by exact He. reflexivity. }
  split; [apply max_pool2d_lookup; assumption|]. split.
  - destruct Hatt as (i' & j' & Hi' & Hj' & Hv).
    apply pool_range_near in Hi', Hj'.
    exists i', j'. split; [exact Hi'|]. split; [exact Hj'|].
    rewrite <- Hcell by tauto. exact Hv.
  - intros i' j' Hi' Hj'.
    destruct (lookup_lt_is_Some_2 (env_grid m5 e) (i' * By + j')%nat) as [v Hv].
    { rewrite Hg. apply grid_index_lt; tauto. }
    exists v. split.
    + rewrite <- Hcell by tauto. exact Hv.
    + apply (Hdom i' j' v); [apply pool_range_near, Hi'
                            | apply pool_range_near, Hj' | exact Hv].
Qed.

End HeightMapPooling.

Lemma pooled_value_is_neighbourhood_maximum_witness :
  Float.isfinite Example.half = true
  /\ (0 < length Example.two_envs)%nat /\ (13 < Bx)%nat /\ (13 < By)%nat
  /\ exists m5 out row post,
       map_2_5D IsaacMath.quat_mul IsaacMath.quat_rotate_inverse
                Example.two_envs Example.half = Some m5
       /\ Example.isaac_height_map Example.two_envs Example.half = Some out
       /\ out !! 0%nat = Some row /\ row !! (13 * By + 13)%nat = Some post.
Proof.
  destruct cell_13_in_grid as [Hx Hy].
  assert (Hn : (0 < length Example.two_envs)%nat)
    by (unfold Example.two_envs; cbn [length]; lia).
  split; [reflexivity|]. split; [exact Hn|]. split; [exact Hx|].
  split; [exact Hy|].
  destruct (pooled_value_is_neighbourhood_maximum
              IsaacMath.quat_mul IsaacMath.quat_rotate_inverse
              Example.two_envs Example.half 0 13 13 eq_refl Hn Hx Hy)
    as (m5 & out & row & post & H5 & Hrun & Hrow & Hpost & _).
  exists m5, out, row, post.
  split; [exact H5|]. split; [exact Hrun|]. split; [exact Hrow | exact Hpost].
Defined.

(** ** A missed ray *)

Lemma sanitize_nonfinite (c : float) :
  Float.isfinite c = false -> sanitize c = Float.zero.
Proof. destruct c; cbn; congruence. Qed.

Lemma sanitize_missed_ray (h pos : vec3) :
  Float.isfinite (vx h) = false -> Float.isfinite (vy h) = false ->
  Float.isfinite (vz h) = false ->
  vec3_map sanitize (vec3_sub h pos) = zero3.
Proof.
  intros Hx Hy Hz. unfold vec3_map, vec3_sub, zero3, vx, vy, vz in *.
  cbn [fst snd].
  rewrite !sanitize_nonfinite by (apply sub_nonfinite_l; assumption).
  reflexivity.
Qed.

Lemma zero3_cell :
  valid_indices zero3 = true /\ x_indices zero3 = 13 /\ y_indices zero3 = 13
  /\ vz zero3 = Float.zero.
Proof. vm_compute. auto. Qed.

Lemma finalize_zero (o : Qc) :
  (dec (-5) 2 < o)%Qc -> finalize (Float.Fin o) Float.zero = Float.zero.
Proof.
  intros Ho. unfold finalize, where_.
  assert (E : ((Float.zero - Float.Fin o) <? min_height)%F = true).
  { unfold Float.zero, Float.of_Q, min_height.
    cbn [Float.sub Float.opp Float.add]. apply ltb_Fin.
    apply (proj2 (Qcplus_lt_mono_r _ _ o)).
    apply (proj1 (Qcplus_lt_mono_r _ _ (dec 5 2))) in Ho.
    replace (Q2Qc 0 + - o + o)%Qc with (dec (-5) 2 + dec 5 2)%Qc.
    - rewrite (Qcplus_comm (dec 5 2)). exact Ho.
    - transitivity 0%Qc; [qc_eq | ring]. }
  rewrite E. reflexivity.
Qed.

Section MissedRay.

Variable quat_mul : quat -> quat -> quat.
Variable quat_rotate_inverse : quat -> vec3 -> vec3.

Local Abbreviation frame := (hit_vec_lidar_frame quat_mul quat_rotate_inverse).
Local Abbreviation raw := (raw_map quat_mul quat_rotate_inverse).
Local Abbreviation step5 := (map_2_5D quat_mul quat_rotate_inverse).

(** X6.  One ray without a hit (all three coordinates NaN or infinite)
    blanks the cell under the sensor: when the rotation leaves the
    zero vector fixed and the offset is above -0.05, cell (13, 13) of
    that environment holds 0.0 in the raw map and after step 5,
    whatever the other rays of the environment hit. *)
Theorem missed_ray_blanks_cell_under_sensor
  (scene : Scene) (o : Qc) (e r : nat) (env : EnvData) (h : vec3) :
  scene !! e = Some env -> ray_hits_w env !! r = Some h ->
  Float.isfinite (vx h) = false -> Float.isfinite (vy h) = false ->
  Float.isfinite (vz h) = false ->
  quat_rotate_inverse (sensor_quat_w quat_mul env) zero3 = zero3 ->
  (dec (-5) 2 < o)%Qc ->
  exists m m5,
    raw scene = Some m /\ step5 scene (Float.Fin o) = Some m5
    /\ m !! flat_index e 13 13 = Some Float.zero
    /\ m5 !! flat_index e 13 13 = Some Float.zero.
Proof.
  intros He Hr Hx Hy Hz Hrot Ho.
  destruct cell_13_in_grid as [H13x H13y].
  destruct zero3_cell as (Hvalid & Hxi & Hyi & Hvz).
  destruct (height_map_lidar_total quat_mul quat_rotate_inverse scene
              (Float.Fin o)) as (m & Hraw & H5 & _).
  destruct (raw_map_spec quat_mul quat_rotate_inverse scene)
    as (m0 & Hraw0 & _ & Hcell).
  rewrite Hraw in Hraw0. injection Hraw0 as <-.
  specialize (Hcell e env 13%nat 13%nat He H13x H13y).
  assert (Hin : Float.zero ∈ cell_points (frame env) 13 13).
  { rewrite <- Hvz. unfold cell_points.
    apply list_elem_of_fmap_2, list_elem_of_filter. split.
    - rewrite Hvalid, Hxi, Hyi. split; [exact I | split; reflexivity].
    - apply (list_elem_of_lookup_2 _ r).
      unfold hit_vec_lidar_frame, hit_vec. rewrite !list_lookup_fmap, Hr.
      cbn [fmap option_fmap option_map].
      rewrite sanitize_missed_ray by assumption. rewrite Hrot. reflexivity. }
  pose proof (fold_amin_is_min _ (cell_points_finite (frame env) 13 13)) as Hmin.
  set (v := fold_left amin (cell_points (frame env) 13 13) Float.PInf) in *.
  assert (Hv : v = Float.zero).
  { assert (Hle : (v <=? Float.zero)%F = true).
    { destruct (cell_points (frame env) 13 13) as [|z zs] eqn:E.
      - inversion Hin.
      - destruct Hmin as [_ Hall]. rewrite Forall_forall in Hall.
        apply Hall, Hin. }
    apply leb_antisym; [exact Hle|].
    pose proof (raw_map_heights quat_mul quat_rotate_inverse scene m Hraw) as Hh.
    pose proof (Forall_lookup_1 _ _ _ _ Hh Hcell) as [E | (z & E & Hlo & _)];
      rewrite E in *.
    - discriminate Hle.
    - apply leb_Fin. exact Hlo. }
  exists m, (finalize (Float.Fin o) <$> m).
  split; [exact Hraw|]. split; [exact H5|]. rewrite Hv in Hcell.
  split; [exact Hcell|].
  rewrite list_lookup_fmap, Hcell. cbn [fmap option_fmap option_map].
  rewrite finalize_zero by exact Ho. reflexivity.
Qed.

End MissedRay.

Lemma missed_ray_blanks_cell_under_sensor_witness :
  Example.one_hit_three_missed !! 0%nat
  = Some (Example.env_of [Example.under_sensor (dec 12 1); Example.inf3;
                          Example.inf3; Example.inf3])
  /\ (dec (-5) 2 < dec 5 1)%Qc
  /\ exists m5,
       map_2_5D IsaacMath.quat_mul IsaacMath.quat_rotate_inverse
                Example.one_hit_three_missed (Float.Fin (dec 5 1)) = Some m5
       /\ m5 !! flat_index 0 13 13 = Some Float.zero.
Proof.
  assert (Ho : (dec (-5) 2 < dec 5 1)%Qc) by (apply Qcltb_lt; reflexivity).
  assert (Hrot : IsaacMath.quat_rotate_inverse
                   (sensor_quat_w IsaacMath.quat_mul
                      (Example.env_of [Example.under_sensor (dec 12 1);
                                       Example.inf3; Example.inf3; Example.inf3]))
                   zero3 = zero3)
    by (apply (bool_decide_unpack _); vm_compute; reflexivity).
  split; [reflexivity|]. split; [exact Ho|].
  destruct (missed_ray_blanks_cell_under_sensor
              IsaacMath.quat_mul IsaacMath.quat_rotate_inverse
              Example.one_hit_three_missed (dec 5 1) 0 1 _ Example.inf3
              eq_refl eq_refl eq_refl eq_refl eq_refl Hrot Ho)
    as (m & m5 & _ & H5 & _ & Hcell).
  exists m5. split; [exact H5 | exact Hcell].
Defined.

(** * Further properties of [process_lidar] *)

Lemma clamp_distance_bounds (q : Qc) :
  (dec 0 0 <= clamp_distance q)%Qc /\ (clamp_distance q <= dec 5 0)%Qc.
Proof.
  unfold clamp_distance.
  destruct (Float.Qcltb q (dec 0 0)) eqn:Hlo.
  { split; apply Qcltb_ge; reflexivity. }
  destruct (Float.Qcltb (dec 5 0) q) eqn:Hhi.
  { split; [apply Qcltb_ge; reflexivity | apply Qcle_refl]. }
  split; apply Qcltb_ge; assumption.
Qed.

Lemma clamp_distance_mono (q1 q2 : Qc) :
  (q1 <= q2)%Qc -> (clamp_distance q1 <= clamp_distance q2)%Qc.
Proof.
  intros Hle. pose proof (clamp_distance_bounds q2) as [H0 H5].
  unfold clamp_distance at 1.
  destruct (Float.Qcltb q1 (dec 0 0)) eqn:Hlo1; [exact H0|].
  destruct (Float.Qcltb (dec 5 0) q1) eqn:Hhi1.
  - unfold clamp_distance.
    apply Qcltb_lt in Hhi1.
    assert (H2 : (dec 5 0 < q2)%Qc) by (eapply Qclt_le_trans; eassumption).
    assert (Hlo2 : Float.Qcltb q2 (dec 0 0) = false).
    { apply Qcltb_ge. apply Qclt_le_weak.
      eapply Qcle_lt_trans; [|exact H2]. apply Qcltb_ge. reflexivity. }
    rewrite Hlo2. apply Qcltb_lt in H2. rewrite H2. apply Qcle_refl.
  - apply Qcltb_ge in Hlo1, Hhi1. unfold clamp_distance.
    assert (Hlo2 : Float.Qcltb q2 (dec 0 0) = false).
    { apply Qcltb_ge. eapply Qcle_trans; eassumption. }
    rewrite Hlo2. destruct (Float.Qcltb (dec 5 0) q2); assumption.
Qed.

(** The value computed for a finite distance. *)
Lemma process_lidar_elem_finite (offset pz hz : float) (q : Qc) :
  lidar_distance offset pz hz = Float.Fin q ->
  process_lidar_elem offset pz hz
  = Float.Fin (clamp_distance q * dec 2 1 - dec 5 1)%Qc.
Proof.
  unfold lidar_distance, process_lidar_elem. intros ->. cbv zeta.
  cbn [masked_fill Float.isnan Float.isinf].
  assert (Hclip : clip near_clip far_clip (Float.Fin q)
                  = Float.Fin (clamp_distance q)).
  { unfold clip, near_clip, far_clip, clamp_distance, Float.gtb.
    cbn [Float.isnan Float.ltb].
    destruct (Float.Qcltb q (dec 0 0)); [reflexivity|].
    destruct (Float.Qcltb (dec 5 0) q); reflexivity. }
  rewrite Hclip, far_minus_near. unfold near_clip. simpl.
  f_equal.
  assert (E5 : (/ dec 5 0)%Qc = dec 2 1) by qc_eq.
  assert (E0 : (- dec 0 0)%Qc = 0%Qc) by qc_eq.
  unfold Qcdiv, Qcminus. rewrite E5, E0, Qcplus_0_r. reflexivity.
Qed.

(** X7.  For a finite distance [d = pos_z - hit_z - offset] the entry
    of [process_lidar] is [-0.5] when [d <= 0], [0.5] when [d >= 5] and
    [d / 5 - 0.5] in between: hits closer than the offset and hits
    farther than 5 above it are not told apart. *)
Theorem process_lidar_saturates (offset pz hz : float) (q : Qc) :
  lidar_distance offset pz hz = Float.Fin q ->
  ((q <= dec 0 0)%Qc ->
   process_lidar_elem offset pz hz = Float.Fin (dec (-5) 1))
  /\ ((dec 5 0 <= q)%Qc ->
      process_lidar_elem offset pz hz = Float.Fin (dec 5 1))
  /\ ((dec 0 0 <= q)%Qc -> (q <= dec 5 0)%Qc ->
      process_lidar_elem offset pz hz
      = Float.Fin (q / dec 5 0 - dec 5 1)%Qc).
Proof.
  intros Hd. rewrite (process_lidar_elem_finite _ _ _ _ Hd).
  assert (E5 : (/ dec 5 0)%Qc = dec 2 1) by qc_eq.
  split; [|split].
  - intros Hq. f_equal.
    assert (Ec : clamp_distance q = dec 0 0).
    { unfold clamp_distance.
      destruct (Float.Qcltb q (dec 0 0)) eqn:Hlo; [reflexivity|].
      apply Qcltb_ge in Hlo.
      assert (Eq : q = dec 0 0) by (apply Qcle_antisym; assumption).
      rewrite Eq. reflexivity. }
    rewrite Ec. qc_eq.
  - intros Hq. f_equal.
    assert (Ec : clamp_distance q = dec 5 0).
    { unfold clamp_distance.
      assert (Hlo : Float.Qcltb q (dec 0 0) = false).
      { apply Qcltb_ge. eapply Qcle_trans; [|exact Hq].
        apply Qcltb_ge. reflexivity. }
      rewrite Hlo.
      destruct (Float.Qcltb (dec 5 0) q) eqn:Hhi; [reflexivity|].
      apply Qcltb_ge in Hhi. apply Qcle_antisym; assumption. }
    rewrite Ec. qc_eq.
  - intros H0 H5. f_equal.
    assert (Ec : clamp_distance q = q).
    { unfold clamp_distance.
      rewrite (proj2 (Qcltb_ge _ _) H0), (proj2 (Qcltb_ge _ _) H5).
      reflexivity. }
    rewrite Ec. unfold Qcdiv. rewrite E5. reflexivity.
Qed.

(** X8.  The entry of [process_lidar] grows with the distance: of two
    rays with finite distances the one with the larger distance has
    the larger or equal entry, and no entry exceeds that of a ray
    without a hit. *)
Theorem process_lidar_monotone
  (offset1 pz1 hz1 offset2 pz2 hz2 : float) (q1 q2 : Qc) :
  lidar_distance offset1 pz1 hz1 = Float.Fin q1 ->
  lidar_distance offset2 pz2 hz2 = Float.Fin q2 ->
  (q1 <= q2)%Qc ->
  (process_lidar_elem offset1 pz1 hz1 <=? process_lidar_elem offset2 pz2 hz2)%F
  = true
  /\ forall offset pz,
       (process_lidar_elem offset2 pz2 hz2
        <=? process_lidar_elem offset pz Float.NaN)%F = true.
Proof.
  intros H1 H2 Hle. split.
  - rewrite (process_lidar_elem_finite _ _ _ _ H1),
            (process_lidar_elem_finite _ _ _ _ H2).
    apply leb_Fin. unfold Qcminus. apply Qcplus_le_mono_r.
    apply Qcmult_le_compat_r; [apply clamp_distance_mono, Hle|].
    apply Qcltb_ge. reflexivity.
  - intros offset pz.
    destruct (process_lidar_elem_band offset2 pz2 hz2) as [(r & Er & _ & Hr) _].
    destruct (process_lidar_elem_band offset pz Float.NaN) as [_ En].
    rewrite Er, (En eq_refl). apply leb_Fin. exact Hr.
Qed.

Lemma process_lidar_saturates_witness :
  lidar_distance Example.half (Example.f 0 0) (Example.f (-12) 1)
  = Float.Fin (dec 7 1)
  /\ (dec 0 0 <= dec 7 1)%Qc /\ (dec 7 1 <= dec 5 0)%Qc
  /\ process_lidar_elem Example.half (Example.f 0 0) (Example.f (-12) 1)
     = Float.Fin (dec 7 1 / dec 5 0 - dec 5 1)%Qc.
Proof.
  assert (Hd : lidar_distance Example.half (Example.f 0 0) (Example.f (-12) 1)
               = Float.Fin (dec 7 1))
    by (apply (bool_decide_unpack _); vm_compute; reflexivity).
  assert (H0 : (dec 0 0 <= dec 7 1)%Qc) by (apply Qcltb_ge; reflexivity).
  assert (H5 : (dec 7 1 <= dec 5 0)%Qc) by (apply Qcltb_ge; reflexivity).
  split; [exact Hd|]. split; [exact H0|]. split; [exact H5|].
  exact (proj2 (proj2 (process_lidar_saturates _ _ _ _ Hd)) H0 H5).
Defined.

Lemma process_lidar_monotone_witness :
  lidar_distance Example.half (Example.f 0 0) (Example.f (-12) 1)
  = Float.Fin (dec 7 1)
  /\ lidar_distance Example.half (Example.f 0 0) (Example.f (-3) 0)
     = Float.Fin (dec 25 1)
  /\ (dec 7 1 <= dec 25 1)%Qc
  /\ (process_lidar_elem Example.half (Example.f 0 0) (Example.f (-12) 1)
      <=? process_lidar_elem Example.half (Example.f 0 0) (Example.f (-3) 0))%F
     = true.
Proof.
  assert (H1 : lidar_distance Example.half (Example.f 0 0) (Example.f (-12) 1)
               = Float.Fin (dec 7 1))
    by (apply (bool_decide_unpack _); vm_compute; reflexivity).
  assert (H2 : lidar_distance Example.half (Example.f 0 0) (Example.f (-3) 0)
               = Float.Fin (dec 25 1))
    by (apply (bool_decide_unpack _); vm_compute; reflexivity).
  assert (Hle : (dec 7 1 <= dec 25 1)%Qc) by (apply Qcltb_ge; reflexivity).
  split; [exact H1|]. split; [exact H2|]. split; [exact Hle|].
  exact (proj1 (process_lidar_monotone _ _ _ _ _ _ _ _ H1 H2 Hle)).
Defined.

(** * Depth images *)

Lemma fill_twice (v p : float) :
  masked_fill Float.isinf v (masked_fill Float.isnan v p)
  = if Float.isfinite p then p else v.
Proof. destruct p; cbn; try reflexivity. destruct v; reflexivity. Qed.

Lemma row_fill_pixel (v : float) (row : list float) (w : nat) :
  (masked_fill Float.isinf v <$> (masked_fill Float.isnan v <$> row)) !! w
  = (fun p => if Float.isfinite p then p else v) <$> row !! w.
Proof.
  rewrite !list_lookup_fmap. destruct (row !! w) as [p|]; [|reflexivity].
  simpl. rewrite fill_twice. reflexivity.
Qed.

Lemma image_fill_pixel (v : float) (img : image) (h w : nat) :
  (row ← ((fun row : list float => masked_fill Float.isinf v <$> row) <$>
          ((fun row : list float => masked_fill Float.isnan v <$> row) <$> img))
         !! h; row !! w)
  = (fun p => if Float.isfinite p then p else v)
      <$> (row ← img !! h; row !! w).
Proof.
  rewrite !list_lookup_fmap. destruct (img !! h) as [row|]; [|reflexivity].
  apply row_fill_pixel.
Qed.

Lemma depth_fill_pixel (v : float) (depth : list image) (n c h w : nat) :
  pixel4 (images_fill Float.isinf v
            (images_fill Float.isnan v (unsqueeze1 depth))) n c h w
  = match c with
    | O => (fun p => if Float.isfinite p then p else v) <$> pixel3 depth n h w
    | S _ => None
    end.
Proof.
  unfold pixel4, pixel3, images_fill, unsqueeze1.
  rewrite !list_lookup_fmap.
  destruct (depth !! n) as [img|]; [|destruct c; reflexivity].
  destruct c as [|c]; [|destruct c; reflexivity].
  apply image_fill_pixel.
Qed.

Lemma depth_fill_all (P : float -> Prop) (v : float) (depth : list image) :
  (forall p, P (if Float.isfinite p then p else v)) ->
  all_pixels P (images_fill Float.isinf v
                  (images_fill Float.isnan v (unsqueeze1 depth))).
Proof.
  intros HP. unfold all_pixels, images_fill, unsqueeze1.
  rewrite <- !list_fmap_compose.
  apply Forall_fmap, Forall_forall. intros img _. cbn [compose fmap list_fmap].
  constructor; [|constructor].
  fold (@fmap list _). rewrite <- !list_fmap_compose.
  apply Forall_fmap, Forall_forall. intros row _. cbn [compose].
  rewrite <- !list_fmap_compose.
  apply Forall_fmap, Forall_forall. intros p _. cbn [compose].
  rewrite fill_twice. apply HP.
Qed.

(** X9.  The depth branch of the camera observations returns a tensor
    of shape [N, 1, H, W] without NaN and without infinite values:
    each finite pixel is returned as it is and each NaN or infinite
    pixel, -Inf included, as 0.0. *)
Theorem camera_depth_sanitized (depth : list image) :
  length (camera_depth depth) = length depth
  /\ (forall n h w,
        pixel4 (camera_depth depth) n 0 h w
        = (fun p => if Float.isfinite p then p else Float.zero)
            <$> pixel3 depth n h w)
  /\ (forall n c h w, pixel4 (camera_depth depth) n (S c) h w = None)
  /\ all_pixels (fun p => Float.isfinite p = true) (camera_depth depth).
Proof.
  unfold camera_depth. split; [|split; [|split]].
  - unfold images_fill, unsqueeze1. rewrite !length_fmap. reflexivity.
  - intros n h w. apply (depth_fill_pixel Float.zero depth n 0 h w).
  - intros n c h w. apply (depth_fill_pixel Float.zero depth n (S c) h w).
  - apply depth_fill_all. intros p. destruct p; reflexivity.
Qed.

(** X10.  [process_depth_image] replaces NaN and infinite depths by
    [far_clip] and returns every finite depth unchanged, also when it
    lies above [far_clip] or below [near_clip]: the output is finite
    when [far_clip] is, and is not confined to
    [[near_clip, far_clip]]. *)
Theorem process_depth_image_not_clipped
  (depth : list image) (far_clip near_clip : float) :
  Float.isfinite far_clip = true ->
  (forall n h w,
     pixel4 (process_depth_image depth far_clip near_clip) n 0 h w
     = (fun p => if Float.isfinite p then p else far_clip)
         <$> pixel3 depth n h w)
  /\ all_pixels (fun p => Float.isfinite p = true)
                (process_depth_image depth far_clip near_clip)
  /\ (forall n h w p,
        pixel3 depth n h w = Some p -> (far_clip <? p)%F = true ->
        Float.isfinite p = true ->
        exists p', pixel4 (process_depth_image depth far_clip near_clip) n 0 h w
                   = Some p'
                   /\ (far_clip <? p')%F = true).
Proof.
  intros Hfar. unfold process_depth_image. split; [|split].
  - intros n h w. apply (depth_fill_pixel far_clip depth n 0 h w).
  - apply depth_fill_all. intros p. destruct p; try exact Hfar. reflexivity.
  - intros n h w p Hp Hlt Hfin. exists p.
    rewrite (depth_fill_pixel far_clip depth n 0 h w), Hp.
    cbn [fmap option_fmap option_map]. rewrite Hfin. auto.
Qed.

Lemma process_depth_image_not_clipped_witness :
  Float.isfinite (Example.f 5 0) = true
  /\ pixel4 (process_depth_image [[[Example.f 7 0; Float.NInf]]]
                                 (Example.f 5 0) (Example.f 3 1)) 0 0 0 0
     = Some (Example.f 7 0)
  /\ pixel4 (process_depth_image [[[Example.f 7 0; Float.NInf]]]
                                 (Example.f 5 0) (Example.f 3 1)) 0 0 0 1
     = Some (Example.f 5 0).
Proof.
  split; [reflexivity|].
  pose proof (proj1 (process_depth_image_not_clipped
                       [[[Example.f 7 0; Float.NInf]]]
                       (Example.f 5 0) (Example.f 3 1) eq_refl)) as H.
  split; [exact (H 0%nat 0%nat 0%nat) | exact (H 0%nat 0%nat 1%nat)].
Defined.
